(** * fr-optical-flow: the training driver of [main.py]

    A shallow embedding of [main], [train] and [validate] of [main.py]:
    the multi-scale loss loops, the three training variants, the
    per-epoch batch loop with its [epoch_size] cap, the validation pass
    and the end-of-epoch checkpoint logic.

    The numeric backend (torch tensors, the network, the loss terms of
    [own_loss], [multiscaleloss], autograd and the optimizer) is outside
    [main.py]; it is the interface [Torch] below and every definition
    is parametric in it.  Python floats are idealised as rationals;
    rounding is not part of the model.  Wall-clock measurements
    ([time.time], [batch_time], [data_time]) are left out. *)

From Stdlib Require Import ZArith QArith Qminmax Qround List String Bool Lia Permutation.
Import ListNotations.
Local Open Scope Z_scope.

Set Implicit Arguments.

(** ** Python-level outcomes *)

Inductive exn : Type :=
  | IndexError
  | AttributeError
  | AssertionError
  | ZeroDivisionError
  | SystemExit.

Inductive outcome (A : Type) : Type :=
  | Ok (a : A)
  | Raise (e : exn).
Arguments Ok {A} a.
Arguments Raise {A} e.

Definition obind {A B} (o : outcome A) (f : A -> outcome B) : outcome B :=
  match o with
  | Ok a => f a
  | Raise e => Raise e
  end.

(** [xs[i]] on a Python list, for a non-negative literal or [range] index. *)
Definition index {A} (xs : list A) (i : nat) : outcome A :=
  match nth_error xs i with
  | Some x => Ok x
  | None => Raise IndexError
  end.

(** ** Configuration *)

(** The dictionary of [get_default_config]; flags are read by truth value. *)
Record config : Type := {
  sl_weight : Q;
  pl_weight : Q;
  fb_weight : Q;
  sl_exp : Q;
  pl_exp : Q;
  fb_exp : Q;
  weighted_sl_loss : bool;
  epochs : Z;
  multiscale_sl_loss : bool;
  multiscale_pl_loss : bool;
  multiscale_census_loss : bool;
  multiscale_ssim_loss : bool;
  multiscale_fb_loss : bool;
  use_l1_loss : bool;
  cfg_unflow : bool;
  sl : bool;
  census : bool;
  ssim : bool;
  fb : bool
}.

Definition get_default_config : config := {|
  sl_weight := 2 # 1000;
  pl_weight := 1;
  fb_weight := 1;
  sl_exp := 38 # 100;
  pl_exp := 25 # 100;
  fb_exp := 45 # 100;
  weighted_sl_loss := true;
  epochs := 1000;
  multiscale_sl_loss := true;
  multiscale_pl_loss := true;
  multiscale_census_loss := true;
  multiscale_ssim_loss := true;
  multiscale_fb_loss := true;
  use_l1_loss := false;
  cfg_unflow := true;
  sl := true;
  census := true;
  ssim := false;
  fb := false
|}.

(** The parsed command line, as far as [main], [train] and [validate]
    read it.  [div_flow] is numeric, as its default is; [pretrained] is
    the ['arch'] entry of the loaded network data, when a path is given. *)
Record Args : Type := {
  dataset : string;
  arch : string;
  pretrained : option string;
  solver : string;
  epoch_size : Z;
  multiscale_weights : list Q;
  sparse : bool;
  print_freq : Z;
  evaluate : bool;
  div_flow : Q;
  milestones : list Z;
  self_supervised_loss : bool;
  unflow : bool
}.

Definition set_sparse (a : Args) (b : bool) : Args := {|
  dataset := dataset a; arch := arch a;
  pretrained := pretrained a; solver := solver a;
  epoch_size := epoch_size a; multiscale_weights := multiscale_weights a;
  sparse := b; print_freq := print_freq a; evaluate := evaluate a;
  div_flow := div_flow a; milestones := milestones a;
  self_supervised_loss := self_supervised_loss a; unflow := unflow a
|}.

Definition set_arch (a : Args) (s : string) : Args := {|
  dataset := dataset a; arch := s;
  pretrained := pretrained a; solver := solver a;
  epoch_size := epoch_size a; multiscale_weights := multiscale_weights a;
  sparse := sparse a; print_freq := print_freq a; evaluate := evaluate a;
  div_flow := div_flow a; milestones := milestones a;
  self_supervised_loss := self_supervised_loss a; unflow := unflow a
|}.

Definition set_solver (a : Args) (s : string) : Args := {|
  dataset := dataset a; arch := arch a;
  pretrained := pretrained a; solver := s;
  epoch_size := epoch_size a; multiscale_weights := multiscale_weights a;
  sparse := sparse a; print_freq := print_freq a; evaluate := evaluate a;
  div_flow := div_flow a; milestones := milestones a;
  self_supervised_loss := self_supervised_loss a; unflow := unflow a
|}.

(** [torch.optim.Adam] or [torch.optim.SGD] *)
Inductive optimizer : Type := Adam | SGD.

(** ** The numeric backend *)

Class Torch : Type := {
  tensor : Type;
  params : Type;
  grads : Type;
  optstate : Type;
  (** [torch.cat(xs, 1)] *)
  cat : list tensor -> tensor;
  (** [t * c] and [c * t] for a Python number [c] *)
  tmul : tensor -> Q -> tensor;
  (** [t + u] on tensors, [t + c] and [c + t] for a Python number [c] *)
  tadd : tensor -> tensor -> tensor;
  tadd_scalar : tensor -> Q -> tensor;
  (** [t.item()] and [t.size(0)] *)
  item : tensor -> Q;
  size0 : tensor -> Z;
  (** [F.interpolate(t, (h, w))] with [(h, w)] the last two sizes of [like] *)
  interpolate : tensor -> tensor -> tensor;
  (** [model(x)] in train mode (a flow pyramid) and in eval mode *)
  forward_train : params -> tensor -> list tensor;
  forward_eval : params -> tensor -> tensor;
  (** the loss terms of [own_loss] and [multiscaleloss] *)
  ternary_loss : tensor -> tensor -> tensor -> Z -> tensor;
  smoothness_loss : tensor -> config -> tensor;
  ssim_loss_fn : tensor -> tensor -> tensor -> tensor;
  forward_backward_loss : tensor -> tensor -> tensor -> tensor -> config -> tensor;
  photometric_loss : tensor -> tensor -> tensor -> config -> tensor;
  weighted_smoothness_loss : tensor -> tensor -> tensor -> config -> tensor;
  multiscaleEPE : list tensor -> tensor -> list Q -> bool -> tensor;
  realEPE : tensor -> tensor -> bool -> tensor;
  (** autograd and the optimizer *)
  gzero : grads;
  gacc : grads -> params -> tensor -> grads;
  opt_step : optimizer -> optstate -> params -> grads -> optstate * params;
  (** [flow2rgb(t, max_value=10)], [t[0]], and the two de-normalised
      input images [(x[0,:3] + mean).clamp(0,1)], [(x[0,3:] + mean).clamp(0,1)] *)
  flow2rgb : tensor -> tensor;
  first : tensor -> tensor;
  input_image : bool -> tensor -> tensor
}.

(** ** Python values that the loss accumulators take *)

Section Driver.
Context `{TT : Torch}.

(** An accumulator starts as the integer [0] and becomes a tensor once a
    loss is added; [0.001 * 0] is a float. *)
Inductive pyval : Type :=
  | PInt (z : Z)
  | PFloat (q : Q)
  | PTens (t : tensor).

Definition py_add (a b : pyval) : pyval :=
  match a, b with
  | PInt x, PInt y => PInt (x + y)
  | PInt x, PFloat y => PFloat (inject_Z x + y)
  | PFloat x, PInt y => PFloat (x + inject_Z y)
  | PFloat x, PFloat y => PFloat (x + y)
  | PTens t, PInt y => PTens (tadd_scalar t (inject_Z y))
  | PInt x, PTens t => PTens (tadd_scalar t (inject_Z x))
  | PTens t, PFloat y => PTens (tadd_scalar t y)
  | PFloat x, PTens t => PTens (tadd_scalar t x)
  | PTens t, PTens u => PTens (tadd t u)
  end.

(** [c * v] for a float literal [c]. *)
Definition py_rmul (c : Q) (v : pyval) : pyval :=
  match v with
  | PInt y => PFloat (c * inject_Z y)
  | PFloat y => PFloat (c * y)
  | PTens t => PTens (tmul t c)
  end.

(** [v.item()] and the tensor behind [v.backward()]: only tensors have them. *)
Definition py_tensor (v : pyval) : outcome tensor :=
  match v with
  | PTens t => Ok t
  | _ => Raise AttributeError
  end.

Definition py_item (v : pyval) : outcome Q :=
  obind (py_tensor v) (fun t => Ok (item t)).

(** ** The per-term loops over the pyramid levels

    Each loss term of [train] is accumulated by a loop of the shape
<<
    acc = 0; lst = []
    for i in range(n):
        loss = term(i)
        acc += loss
        lst.append(loss.item())
        if not multiscale: break
>>
    [over_levels] is that loop on the remaining indices. *)
Fixpoint over_levels (term : nat -> outcome tensor) (multiscale : bool)
    (idx : list nat) (acc : pyval) (lst : list Q) : outcome (pyval * list Q) :=
  match idx with
  | [] => Ok (acc, lst)
  | i :: rest =>
      match term i with
      | Raise e => Raise e
      | Ok loss =>
          let acc' := py_add acc (PTens loss) in
          let lst' := lst ++ [item loss] in
          if negb multiscale then Ok (acc', lst')
          else over_levels term multiscale rest acc' lst'
      end
  end.

Definition range (n : nat) : list nat := seq 0 n.

Section Terms.
Variable args : Args.
Variable cfg : config.
Variables im1 im2 : tensor.

(** [pred[i] * args.div_flow] *)
Definition scaled (pred : list tensor) (i : nat) : outcome tensor :=
  obind (index pred i) (fun f => Ok (tmul f (div_flow args))).

Definition census_term (pred_fw pred_bw : list tensor) (i : nat) : outcome tensor :=
  obind (scaled pred_fw i) (fun flow_fw =>
  obind (scaled pred_bw i) (fun flow_bw =>
  Ok (tadd (ternary_loss im2 im1 flow_fw 1) (ternary_loss im1 im2 flow_bw 1)))).

Definition census_levels (pred_fw pred_bw : list tensor) : outcome (pyval * list Q) :=
  over_levels (census_term pred_fw pred_bw) (multiscale_census_loss cfg)
    (range (List.length pred_fw)) (PInt 0) [].

Definition sl_term (pred_fw pred_bw : list tensor) (i : nat) : outcome tensor :=
  obind (scaled pred_fw i) (fun flow_fw =>
  obind (scaled pred_bw i) (fun flow_bw =>
  Ok (tadd (smoothness_loss flow_fw cfg) (smoothness_loss flow_bw cfg)))).

Definition sl_levels (pred_fw pred_bw : list tensor) : outcome (pyval * list Q) :=
  over_levels (sl_term pred_fw pred_bw) (multiscale_sl_loss cfg)
    (range (List.length pred_fw)) (PInt 0) [].

Definition ssim_term (pred_bw : list tensor) (i : nat) : outcome tensor :=
  obind (scaled pred_bw i) (fun flow_bw => Ok (ssim_loss_fn im1 im2 flow_bw)).

Definition ssim_levels (pred_bw : list tensor) : outcome (pyval * list Q) :=
  over_levels (ssim_term pred_bw) (multiscale_ssim_loss cfg)
    (range (List.length pred_bw)) (PInt 0) [].

Definition fb_term (pred_fw pred_bw : list tensor) (i : nat) : outcome tensor :=
  obind (scaled pred_fw i) (fun flow_fw =>
  obind (scaled pred_bw i) (fun flow_bw =>
  Ok (forward_backward_loss im1 im2 flow_fw flow_bw cfg))).

Definition fb_levels (pred_fw pred_bw : list tensor) : outcome (pyval * list Q) :=
  over_levels (fb_term pred_fw pred_bw) (multiscale_fb_loss cfg)
    (range (List.length pred_bw)) (PInt 0) [].

(** The loops of the single-direction self-supervised variant. *)
Definition pl_term (pred : list tensor) (i : nat) : outcome tensor :=
  obind (scaled pred i) (fun flow => Ok (photometric_loss im1 im2 flow cfg)).

Definition pl_levels (pred : list tensor) : outcome (pyval * list Q) :=
  over_levels (pl_term pred) (multiscale_pl_loss cfg)
    (range (List.length pred)) (PInt 0) [].

Definition wsl_term (pred : list tensor) (i : nat) : outcome tensor :=
  obind (scaled pred i) (fun flow => Ok (weighted_smoothness_loss im1 im2 flow cfg)).

Definition plain_sl_term (pred : list tensor) (i : nat) : outcome tensor :=
  obind (scaled pred i) (fun flow => Ok (smoothness_loss flow cfg)).

Definition single_sl_levels (pred : list tensor) : outcome (pyval * list Q) :=
  if weighted_sl_loss cfg then
    over_levels (wsl_term pred) (multiscale_sl_loss cfg)
      (range (List.length pred)) (PInt 0) []
  else
    over_levels (plain_sl_term pred) (multiscale_sl_loss cfg)
      (range (List.length pred)) (PInt 0) [].

End Terms.

(** ** Metric accumulators *)

(** Modelled from the spec: [util.AverageMeter] is not part of [main.py].
    A (sum, count) pair; recording [val] with count [n] adds [val * n]
    and [n]; the running average is sum / count. *)
Record meter : Type := { m_sum : Q; m_count : Z }.

Definition meter_reset : meter := {| m_sum := 0; m_count := 0 |}.

Definition meter_update (m : meter) (val : Q) (n : Z) : meter :=
  {| m_sum := (m_sum m + val * inject_Z n)%Q; m_count := m_count m + n |}.

Definition meter_avg (m : meter) : Q := (m_sum m / inject_Z (m_count m))%Q.

(** ** Program state, events and the driver monad *)

Record checkpoint : Type := {
  ck_epoch : Z;
  ck_arch : string;
  ck_state_dict : params;
  ck_best_EPE : Q;
  ck_div_flow : Q
}.

(** What the driver does to its collaborators, in program order. *)
Inductive event : Type :=
  | EvForward (training grad_on : bool) (x : tensor)
  | EvScalar (writer tag : string) (v : Q) (step : Z)
  | EvDebug (tag : string) (vals : list Q)
  | EvProgress (epoch it size : Z) (loss epe : Q)
  | EvTest (i size : Z) (epe : Q)
  | EvMeanEPE (epe : Q)
  | EvImage (writer : Z) (tag : string) (img : tensor) (step : Z)
  | EvZeroGrad
  | EvBackward (loss : tensor)
  | EvStep
  | EvOptimizer (o : optimizer)
  | EvScheduler (ms : list Z)
  | EvSchedulerStep
  | EvCheckpoint (c : checkpoint) (is_best : bool).

Record state : Type := {
  n_iter : Z;
  best_EPE : Q;
  grad_enabled : bool;
  training : bool;
  weights : params;
  grad : grads;
  opt : optstate;
  trace : list event
}.

Definition M (A : Type) : Type := state -> outcome A * state.

Definition ret {A} (a : A) : M A := fun s => (Ok a, s).

Definition bind {A B} (m : M A) (f : A -> M B) : M B :=
  fun s => match m s with
           | (Ok a, s') => f a s'
           | (Raise e, s') => (Raise e, s')
           end.

Definition raise {A} (e : exn) : M A := fun s => (Raise e, s).

Definition lift {A} (o : outcome A) : M A := fun s => (o, s).

Definition gets {A} (f : state -> A) : M A := fun s => (Ok (f s), s).

Definition modify (f : state -> state) : M unit := fun s => (Ok tt, f s).

Notation "x <- c1 ;; c2" := (bind c1 (fun x => c2))
  (at level 61, c1 at next level, right associativity).
Notation "' pat <- c1 ;; c2" := (bind c1 (fun x => match x with pat => c2 end))
  (at level 61, pat pattern, c1 at next level, right associativity).
Notation "c1 ;; c2" := (bind c1 (fun _ => c2))
  (at level 61, right associativity).

Definition emit (e : event) : M unit :=
  modify (fun s => {| n_iter := n_iter s; best_EPE := best_EPE s;
                      grad_enabled := grad_enabled s; training := training s;
                      weights := weights s; grad := grad s; opt := opt s;
                      trace := trace s ++ [e] |}).

Definition set_n_iter (n : Z) : M unit :=
  modify (fun s => {| n_iter := n; best_EPE := best_EPE s;
                      grad_enabled := grad_enabled s; training := training s;
                      weights := weights s; grad := grad s; opt := opt s;
                      trace := trace s |}).

Definition set_best_EPE (q : Q) : M unit :=
  modify (fun s => {| n_iter := n_iter s; best_EPE := q;
                      grad_enabled := grad_enabled s; training := training s;
                      weights := weights s; grad := grad s; opt := opt s;
                      trace := trace s |}).

Definition set_grad_enabled (b : bool) (s : state) : state :=
  {| n_iter := n_iter s; best_EPE := best_EPE s;
     grad_enabled := b; training := training s;
     weights := weights s; grad := grad s; opt := opt s;
     trace := trace s |}.

(** [model.train()] and [model.eval()] *)
Definition set_training (b : bool) : M unit :=
  modify (fun s => {| n_iter := n_iter s; best_EPE := best_EPE s;
                      grad_enabled := grad_enabled s; training := b;
                      weights := weights s; grad := grad s; opt := opt s;
                      trace := trace s |}).

(** [with torch.no_grad(): m]: the mode is restored on every exit. *)
Definition with_no_grad {A} (m : M A) : M A :=
  fun s => let old := grad_enabled s in
           match m (set_grad_enabled false s) with
           | (r, s') => (r, set_grad_enabled old s')
           end.

(** [model(x)] as [train] uses it (a pyramid) and as [validate] does. *)
Definition model_pyramid (x : tensor) : M (list tensor) :=
  s <- gets (fun s => s) ;;
  emit (EvForward (training s) (grad_enabled s) x) ;;
  ret (forward_train (weights s) x).

Definition model_flow (x : tensor) : M tensor :=
  s <- gets (fun s => s) ;;
  emit (EvForward (training s) (grad_enabled s) x) ;;
  ret (forward_eval (weights s) x).

(** [optimizer.zero_grad()], [loss.backward()], [optimizer.step()] *)
Definition zero_grad : M unit :=
  modify (fun s => {| n_iter := n_iter s; best_EPE := best_EPE s;
                      grad_enabled := grad_enabled s; training := training s;
                      weights := weights s; grad := gzero; opt := opt s;
                      trace := trace s ++ [EvZeroGrad] |}).

Definition backward (loss : pyval) : M unit :=
  t <- lift (py_tensor loss) ;;
  modify (fun s => {| n_iter := n_iter s; best_EPE := best_EPE s;
                      grad_enabled := grad_enabled s; training := training s;
                      weights := weights s; grad := gacc (grad s) (weights s) t;
                      opt := opt s;
                      trace := trace s ++ [EvBackward t] |}).

Definition optimizer_step (o : optimizer) : M unit :=
  modify (fun s => let r := opt_step o (opt s) (weights s) (grad s) in
                   {| n_iter := n_iter s; best_EPE := best_EPE s;
                      grad_enabled := grad_enabled s; training := training s;
                      weights := snd r; grad := grad s; opt := fst r;
                      trace := trace s ++ [EvStep] |}).

(** [train_writer.add_scalar(tag, v.item(), n_iter)] *)
Definition add_scalar_item (tag : string) (v : pyval) : M unit :=
  x <- lift (py_item v) ;;
  n <- gets n_iter ;;
  emit (EvScalar "train" tag x n).


(** ** [train] *)

Definition batch : Type := (list tensor * tensor)%type.

(** The two meters of an epoch: [losses] and [flow2_EPEs]. *)
Definition meters : Type := (meter * meter)%type.

Section Train.
Variable args : Args.
Variable cfg : config.
Variable optim : optimizer.
Variable epoch : Z.
(** [epoch_size], as computed at the top of [train] *)
Variable size : Z.

(** [if it % args.print_freq == 0: print('Epoch: ...')] *)
Definition progress (it : Z) (ms : meters) : M unit :=
  if print_freq args =? 0 then raise ZeroDivisionError
  else if it mod print_freq args =? 0
       then emit (EvProgress epoch it size (meter_avg (fst ms)) (meter_avg (snd ms)))
       else ret tt.

(** [n_iter += 1] *)
Definition incr_n_iter : M unit :=
  n <- gets n_iter ;;
  set_n_iter (n + 1).

(** The body of the loop of the supervised variant
    ([not args.self_supervised_loss]). *)
Definition supervised_batch (i : Z) (b : batch) (ms : meters) : M meters :=
  let '(input, target) := b in
  let input := cat input in
  output <- model_pyramid input ;;
  output <- (if sparse args
             then o0 <- lift (index output 0) ;;
                  ret (interpolate o0 target :: tl output)
             else ret output) ;;
  let loss := multiscaleEPE output target (multiscale_weights args) (sparse args) in
  o0 <- lift (index output 0) ;;
  let flow2_EPE := tmul (realEPE o0 target (sparse args)) (div_flow args) in
  let losses := meter_update (fst ms) (item loss) (size0 target) in
  add_scalar_item "train_loss" (PTens loss) ;;
  let flow2_EPEs := meter_update (snd ms) (item flow2_EPE) (size0 target) in
  zero_grad ;;
  backward (PTens loss) ;;
  optimizer_step optim ;;
  progress i (losses, flow2_EPEs) ;;
  incr_n_iter ;;
  ret (losses, flow2_EPEs).

(** One loss term of the unflow variant: skipped (the accumulator stays
    the integer [0]) when its flag is off, else accumulated over the
    levels and logged. *)
Definition logged_term (enabled : bool) (tag : string)
    (levels : outcome (pyval * list Q)) : M (pyval * list Q) :=
  if enabled
  then r <- lift levels ;;
       add_scalar_item tag (fst r) ;;
       ret r
  else ret (PInt 0, []).

(** [loss = census_loss + sl_loss + ssim_loss + 0.001*fb_loss] *)
Definition combined_loss (census_loss sl_loss ssim_loss fb_loss : pyval) : pyval :=
  py_add (py_add (py_add census_loss sl_loss) ssim_loss)
         (py_rmul (1 # 1000) fb_loss).

(** The two forward passes at the top of the unflow body. *)
Definition predict_both (input : list tensor)
    : M (tensor * tensor * list tensor * list tensor) :=
  im1 <- lift (index input 0) ;;
  im2 <- lift (index input 1) ;;
  let input_fw := cat input in
  pred_fw <- model_pyramid input_fw ;;
  let input_bw := cat [im2; im1] in
  pred_bw <- model_pyramid input_bw ;;
  ret (im1, im2, pred_fw, pred_bw).

(** The body of the loop of the unflow variant. *)
Definition unflow_batch (it : Z) (b : batch) (ms : meters) : M meters :=
  let '(input, target) := b in
  ' (im1, im2, pred_fw, pred_bw) <- predict_both input ;;
  census <- logged_term (census cfg) "train_loss_census"
              (census_levels args cfg im1 im2 pred_fw pred_bw) ;;
  sl <- logged_term (sl cfg) "train_loss_sl"
              (sl_levels args cfg pred_fw pred_bw) ;;
  ssim <- logged_term (ssim cfg) "train_loss_ssim"
              (ssim_levels args cfg im1 im2 pred_bw) ;;
  fb <- logged_term (fb cfg) "train_loss_fb"
              (fb_levels args cfg im1 im2 pred_fw pred_bw) ;;
  (if it mod 500 =? 0
   then emit (EvDebug "census_loss" (snd census)) ;;
        emit (EvDebug "sl_loss" (snd sl)) ;;
        emit (EvDebug "ssim_loss" (snd ssim)) ;;
        emit (EvDebug "fb_loss" (snd fb))
   else ret tt) ;;
  let loss := combined_loss (fst census) (fst sl) (fst ssim) (fst fb) in
  flow <- lift (index pred_bw 0) ;;
  x <- lift (py_item loss) ;;
  let losses := meter_update (fst ms) x (size0 target) in
  let flow2_EPE := tmul (realEPE flow target (sparse args)) (div_flow args) in
  add_scalar_item "train_loss" loss ;;
  let flow2_EPEs := meter_update (snd ms) (item flow2_EPE) (size0 target) in
  zero_grad ;;
  backward loss ;;
  optimizer_step optim ;;
  progress it (losses, flow2_EPEs) ;;
  incr_n_iter ;;
  ret (losses, flow2_EPEs).

(** The body of the loop of the single-direction self-supervised variant. *)
Definition selfsup_batch (it : Z) (b : batch) (ms : meters) : M meters :=
  let '(input, target) := b in
  im1 <- lift (index input 0) ;;
  im2 <- lift (index input 1) ;;
  let input := cat input in
  pred <- model_pyramid input ;;
  pl <- lift (pl_levels args cfg im1 im2 pred) ;;
  sl <- lift (single_sl_levels args cfg im1 im2 pred) ;;
  (if it mod 500 =? 0
   then emit (EvDebug "pl_loss" (snd pl)) ;;
        emit (EvDebug "sl_loss" (snd sl))
   else ret tt) ;;
  let loss := py_add (fst pl) (fst sl) in
  flow <- lift (index pred 0) ;;
  x <- lift (py_item loss) ;;
  let losses := meter_update (fst ms) x (size0 target) in
  let flow2_EPE := tmul (realEPE flow target (sparse args)) (div_flow args) in
  add_scalar_item "train_loss" loss ;;
  add_scalar_item "train_loss_pl" (fst pl) ;;
  add_scalar_item "train_loss_sl" (fst sl) ;;
  let flow2_EPEs := meter_update (snd ms) (item flow2_EPE) (size0 target) in
  zero_grad ;;
  backward loss ;;
  optimizer_step optim ;;
  progress it (losses, flow2_EPEs) ;;
  incr_n_iter ;;
  ret (losses, flow2_EPEs).

(** [for it, b in enumerate(train_loader): body; if it >= epoch_size: break] *)
Fixpoint batch_loop (body : Z -> batch -> meters -> M meters)
    (it : Z) (bs : list batch) (ms : meters) : M meters :=
  match bs with
  | [] => ret ms
  | b :: rest =>
      ms' <- body it b ms ;;
      if it >=? size then ret ms'
      else batch_loop body (it + 1) rest ms'
  end.

End Train.

(** [epoch_size = len(train_loader) if args.epoch_size == 0
                 else min(len(train_loader), args.epoch_size)] *)
Definition train_epoch_size (args : Args) (train_loader : list batch) : Z :=
  if epoch_size args =? 0 then Z.of_nat (List.length train_loader)
  else Z.min (Z.of_nat (List.length train_loader)) (epoch_size args).

(** The three variants, chosen by the two flags of [args]. *)
Inductive variant : Type := Supervised | Unflow | SelfSupervised.

Definition train_variant (args : Args) : variant :=
  if negb (self_supervised_loss args) then Supervised
  else if unflow args then Unflow
  else SelfSupervised.

Definition train_body (args : Args) (cfg : config) (optim : optimizer)
    (epoch size : Z) : Z -> batch -> meters -> M meters :=
  match train_variant args with
  | Supervised => supervised_batch args optim epoch size
  | Unflow => unflow_batch args cfg optim epoch size
  | SelfSupervised => selfsup_batch args cfg optim epoch size
  end.

Definition train (args : Args) (cfg : config) (train_loader : list batch)
    (optim : optimizer) (epoch : Z) : M (Q * Q) :=
  let size := train_epoch_size args train_loader in
  set_training true ;;
  ms <- batch_loop size (train_body args cfg optim epoch size) 0 train_loader
          (meter_reset, meter_reset) ;;
  ret (meter_avg (fst ms), meter_avg (snd ms)).


(** ** [validate] *)

Section Validate.
Variable args : Args.
Variable epoch : Z.
(** [len(output_writers)] and [len(val_loader)] *)
Variable n_writers : Z.
Variable n_batches : Z.

(** The images of one of the first batches. *)
Definition log_images (i : Z) (input target output : tensor) : M unit :=
  if i <? n_writers
  then (if epoch =? 0
        then emit (EvImage i "GroundTruth"
                     (flow2rgb (tmul (first target) (div_flow args))) 0) ;;
             emit (EvImage i "Inputs" (input_image false input) 0) ;;
             emit (EvImage i "Inputs" (input_image true input) 1)
        else ret tt) ;;
       emit (EvImage i "FlowNet Outputs"
               (flow2rgb (tmul (first output) (div_flow args))) epoch)
  else ret tt.

Definition validate_batch (i : Z) (b : batch) (flow2_EPEs : meter) : M meter :=
  let '(input, target) := b in
  let input := cat input in
  output <- model_flow input ;;
  let flow2_EPE := tmul (realEPE output target (sparse args)) (div_flow args) in
  let flow2_EPEs := meter_update flow2_EPEs (item flow2_EPE) (size0 target) in
  log_images i input target output ;;
  (if print_freq args =? 0 then raise ZeroDivisionError
   else if i mod print_freq args =? 0
        then emit (EvTest i n_batches (meter_avg flow2_EPEs))
        else ret tt) ;;
  ret flow2_EPEs.

Fixpoint validate_loop (i : Z) (bs : list batch) (flow2_EPEs : meter) : M meter :=
  match bs with
  | [] => ret flow2_EPEs
  | b :: rest =>
      m <- validate_batch i b flow2_EPEs ;;
      validate_loop (i + 1) rest m
  end.

End Validate.

Definition validate (args : Args) (val_loader : list batch) (epoch : Z)
    (n_writers : Z) : M Q :=
  set_training false ;;
  m <- validate_loop args epoch n_writers (Z.of_nat (List.length val_loader))
         0 val_loader meter_reset ;;
  emit (EvMeanEPE (meter_avg m)) ;;
  ret (meter_avg m).

(** ** [main] *)

(** [a < b] and [min(a, b)] on Python floats *)
Definition py_lt (a b : Q) : bool := negb (Qle_bool b a).

Definition py_min (a b : Q) : Q := if py_lt b a then b else a.

(** [save_checkpoint(record, is_best, save_path)]: the call into the
    checkpoint sink of [util], with the record and the flag it is given. *)
Definition save_checkpoint (c : checkpoint) (is_best : bool) : M unit :=
  emit (EvCheckpoint c is_best).

(** The end of one pass of the epoch loop: update [best_EPE] and hand
    the record to the checkpoint sink. *)
Definition epoch_end (args : Args) (epoch : Z) (EPE : Q) : M unit :=
  best <- gets best_EPE ;;
  (if py_lt best 0 then set_best_EPE EPE else ret tt) ;;
  best <- gets best_EPE ;;
  let is_best := py_lt EPE best in
  set_best_EPE (py_min EPE best) ;;
  w <- gets weights ;;
  best <- gets best_EPE ;;
  save_checkpoint {| ck_epoch := epoch + 1;
                     ck_arch := arch args;
                     ck_state_dict := w;
                     ck_best_EPE := best;
                     ck_div_flow := div_flow args |} is_best.

(** One pass of the epoch loop of [main]. *)
Definition run_epoch (args : Args) (cfg : config) (train_loader : Z -> list batch)
    (val_loader : list batch) (optim : optimizer) (epoch : Z) : M unit :=
  ' (train_loss, train_EPE) <- train args cfg (train_loader epoch) optim epoch ;;
  emit EvSchedulerStep ;;
  emit (EvScalar "train" "mean EPE" train_EPE epoch) ;;
  EPE <- with_no_grad (validate args val_loader epoch 3) ;;
  emit (EvScalar "test" "mean EPE" EPE epoch) ;;
  epoch_end args epoch EPE.

Fixpoint for_each (body : Z -> M unit) (xs : list nat) : M unit :=
  match xs with
  | [] => ret tt
  | x :: rest => body (Z.of_nat x) ;; for_each body rest
  end.

(** ['KITTI' in args.dataset] *)
Fixpoint contains (needle hay : string) : bool :=
  String.prefix needle hay ||
  match hay with
  | EmptyString => false
  | String _ rest => contains needle rest
  end.

Definition known_solver (s : string) : bool :=
  String.eqb s "adam" || String.eqb s "sgd".

(** [main]; the train loader yields its batches in a fresh order on
    every epoch, so it is a function of the epoch here.  The result is
    [None] for the bare [return] of the evaluate-only mode.

    The log holds what the model, the optimizer, the scheduler, the
    summary writers and the checkpoint sink are asked to do.  The
    calls to the experiment tracker ([wandb.init],
    [wandb.config.update(args)], which reads [args] before the KITTI
    override below, and [wandb.watch]) and the construction of the
    directories, the transforms, the datasets and the loaders are not
    part of it. *)
Definition main (args : Args) (cfg : config) (train_loader : Z -> list batch)
    (val_loader : list batch) : M (option Q) :=
  let args := if contains "KITTI" (dataset args) then set_sparse args true else args in
  let args := match pretrained args with
              | Some a => set_arch args a
              | None => args
              end in
  (if known_solver (solver args) then ret tt else raise AssertionError) ;;
  let optim := if String.eqb (solver args) "adam" then Adam else SGD in
  emit (EvOptimizer optim) ;;
  if evaluate args
  then e <- validate args val_loader 0 3 ;;
       set_best_EPE e ;;
       ret None
  else
    emit (EvScheduler (milestones args)) ;;
    for_each (run_epoch args cfg train_loader val_loader optim)
             (range (Z.to_nat (epochs cfg))) ;;
    best <- gets best_EPE ;;
    ret (Some best).

(** ** The command line and the script *)

(** [--solver], with [default='adam'] and [choices=['adam','sgd']]:
    argparse exits on a value outside the choices. *)
Definition parse_solver (given : option string) : outcome string :=
  match given with
  | None => Ok "adam"%string
  | Some s => if known_solver s then Ok s else Raise SystemExit
  end.

(** The state at module load: [best_EPE = -1], [n_iter = 0]; gradient
    tracking is on and a fresh module is in train mode. *)
Definition init_state (w : params) (o : optstate) : state :=
  {| n_iter := 0; best_EPE := -1; grad_enabled := true; training := true;
     weights := w; grad := gzero; opt := o; trace := [] |}.

(** [args = parser.parse_args()] at module level, then [main()]. *)
Definition script (given_solver : option string) (rest : Args) (cfg : config)
    (train_loader : Z -> list batch) (val_loader : list batch) : M (option Q) :=
  solver <- lift (parse_solver given_solver) ;;
  main (set_solver rest solver) cfg train_loader val_loader.

End Driver.

Notation "x <- c1 ;; c2" := (bind c1 (fun x => c2))
  (at level 61, c1 at next level, right associativity).
Notation "' pat <- c1 ;; c2" := (bind c1 (fun x => match x with pat => c2 end))
  (at level 61, pat pattern, c1 at next level, right associativity).
Notation "c1 ;; c2" := (bind c1 (fun _ => c2))
  (at level 61, right associativity).

Arguments PInt {TT} z.
Arguments PFloat {TT} q.

(** ** Reading traces *)

Section Traces.
Context `{TT : Torch}.

Definition is_step (e : event) : bool :=
  match e with EvStep => true | _ => false end.

Definition is_forward (e : event) : bool :=
  match e with EvForward _ _ _ => true | _ => false end.


(** The number of optimizer steps, that is of processed training batches. *)
Definition steps (tr : list event) : Z := Z.of_nat (List.length (filter is_step tr)).

(** The inputs of the forward passes, in order. *)
Definition forwards (tr : list event) : list tensor :=
  flat_map (fun e => match e with EvForward _ _ x => [x] | _ => [] end) tr.

(** The losses handed to [backward], in order. *)
Definition backwards (tr : list event) : list tensor :=
  flat_map (fun e => match e with EvBackward t => [t] | _ => [] end) tr.

(** The gradient mode of each forward pass, in order. *)
Definition forward_modes (tr : list event) : list bool :=
  flat_map (fun e => match e with EvForward _ g _ => [g] | _ => [] end) tr.

(** The calls into the checkpoint sink, in order: record and flag. *)
Definition saved (tr : list event) : list (checkpoint * bool) :=
  flat_map (fun e => match e with EvCheckpoint c b => [(c, b)] | _ => [] end) tr.

(** Partial correctness of a driver computation: whenever [m] returns
    from [s], the result and the final state satisfy [post]. *)
Definition wp {A} (m : M A) (s : state) (post : A -> state -> Prop) : Prop :=
  forall a s', m s = (Ok a, s') -> post a s'.

(** [s'] differs from [s] at most by log entries that are neither
    forward passes, nor backward passes, nor optimizer steps, nor
    checkpoints. *)
Definition same_core (s s' : state) : Prop :=
  n_iter s' = n_iter s /\ best_EPE s' = best_EPE s /\
  grad_enabled s' = grad_enabled s /\ training s' = training s /\
  weights s' = weights s /\ grad s' = grad s /\ opt s' = opt s /\
  forwards (trace s') = forwards (trace s) /\
  backwards (trace s') = backwards (trace s) /\
  steps (trace s') = steps (trace s).

(** The value of one loss term of the unflow variant: what its loop
    over the levels returns when the term is enabled (a tensor, since
    its [item] has been logged), the integer [0] when it is not. *)
Definition term_value (enabled : bool) (levels : outcome (pyval * list Q))
    (v : pyval) : Prop :=
  if enabled then exists lst, levels = Ok (v, lst) /\ exists t, v = PTens t
  else v = PInt 0.

(** What a returning pass through the body of the unflow loop has done:
    the four term values [c], [l], [m], [f], the tensor [t] handed to
    [backward], and the finest backward flow [b0] behind the
    endpoint-error diagnostic. *)
Definition unflow_outcome (args : Args) (cfg : config) (optim : optimizer)
    (input : list tensor) (target : tensor) (ms : meters) (s : state)
    (r : meters) (s' : state) : Prop :=
  exists im1 im2 c l m f t b0,
    let pred_fw := forward_train (weights s) (cat input) in
    let pred_bw := forward_train (weights s) (cat [im2; im1]) in
    index input 0 = Ok im1 /\ index input 1 = Ok im2 /\
    term_value (census cfg) (census_levels args cfg im1 im2 pred_fw pred_bw) c /\
    term_value (sl cfg) (sl_levels args cfg pred_fw pred_bw) l /\
    term_value (ssim cfg) (ssim_levels args cfg im1 im2 pred_bw) m /\
    term_value (fb cfg) (fb_levels args cfg im1 im2 pred_fw pred_bw) f /\
    py_add (py_add (py_add c l) m) (py_rmul (1 # 1000) f) = PTens t /\
    index pred_bw 0 = Ok b0 /\
    r = (meter_update (fst ms) (item t) (size0 target),
         meter_update (snd ms)
           (item (tmul (realEPE b0 target (sparse args)) (div_flow args)))
           (size0 target)) /\
    forwards (trace s') = forwards (trace s) ++ [cat input; cat [im2; im1]] /\
    backwards (trace s') = backwards (trace s) ++ [t] /\
    steps (trace s') = steps (trace s) + 1 /\
    n_iter s' = n_iter s + 1 /\
    grad s' = gacc gzero (weights s) t /\
    weights s' = snd (opt_step optim (opt s) (weights s) (gacc gzero (weights s) t)) /\
    opt s' = fst (opt_step optim (opt s) (weights s) (gacc gzero (weights s) t)) /\
    best_EPE s' = best_EPE s /\ grad_enabled s' = grad_enabled s /\
    training s' = training s.

(** [s'] has the model, the optimizer and the counters of [s], and no
    further backward pass or optimizer step in its log. *)
Definition untouched (s s' : state) : Prop :=
  n_iter s' = n_iter s /\ best_EPE s' = best_EPE s /\
  grad_enabled s' = grad_enabled s /\
  weights s' = weights s /\ grad s' = grad s /\ opt s' = opt s /\
  backwards (trace s') = backwards (trace s) /\
  steps (trace s') = steps (trace s).

(** [m] leaves the model, the optimizer and the counters alone, however
    it ends. *)
Definition frame {A} (m : M A) : Prop :=
  forall s, untouched s (snd (m s)).

(** [m] only ever appends to the log. *)
Definition extends {A} (m : M A) : Prop :=
  forall s, exists evs, trace (snd (m s)) = trace s ++ evs.

(** The number of batches the loop of [train] gets through, for the cap
    [size], from index [it] on, with [n] batches left. *)
Definition processed (size it : Z) (n : nat) : Z :=
  Z.min (Z.of_nat n) (Z.max (size - it) 0 + 1).

(** The four terms of the unflow variant at one level, given that
    level's forward and backward flow as the model returns them. *)
Definition census_at (args : Args) (im1 im2 : tensor) (p : tensor * tensor) : tensor :=
  tadd (ternary_loss im2 im1 (tmul (fst p) (div_flow args)) 1)
       (ternary_loss im1 im2 (tmul (snd p) (div_flow args)) 1).

Definition sl_at (args : Args) (cfg : config) (p : tensor * tensor) : tensor :=
  tadd (smoothness_loss (tmul (fst p) (div_flow args)) cfg)
       (smoothness_loss (tmul (snd p) (div_flow args)) cfg).

Definition ssim_at (args : Args) (im1 im2 : tensor) (f : tensor) : tensor :=
  ssim_loss_fn im1 im2 (tmul f (div_flow args)).

Definition fb_at (args : Args) (cfg : config) (im1 im2 : tensor)
    (p : tensor * tensor) : tensor :=
  forward_backward_loss im1 im2 (tmul (fst p) (div_flow args))
                        (tmul (snd p) (div_flow args)) cfg.

(** The sum of per-level evaluations, in the spec's words, written with
    the tensor addition of the backend: [t0 + t1 + ... + tn], left to
    right; the integer [0] the accumulator starts from when there is
    no level at all. *)
Definition sum_levels (ls : list tensor) : pyval :=
  match ls with
  | [] => PInt 0
  | t0 :: rest => PTens (fold_left tadd rest t0)
  end.

(** The tensor behind a Python value, if it is one. *)
Definition tensors (v : pyval) : list tensor :=
  match v with
  | PTens t => [t]
  | _ => []
  end.

(** [m] is a least element of [l]. *)
Definition is_min (m : Q) (l : list Q) : Prop :=
  In m l /\ Forall (fun x => (m <= x)%Q) l.

(** The mean EPEs that passes of [validate] have reported, in order. *)
Definition validation_EPEs (tr : list event) : list Q :=
  flat_map (fun e => match e with EvMeanEPE q => [q] | _ => [] end) tr.

(** Lines 248-252 of [main] on their own: from the best value so far
    and the epoch's EPE, the new best value and the [is_best] flag. *)
Definition best_step (best EPE : Q) : Q * bool :=
  (py_min EPE (if py_lt best 0 then EPE else best),
   py_lt EPE (if py_lt best 0 then EPE else best)).

(** The best value and the flag after each of a sequence of epochs. *)
Fixpoint best_track (best : Q) (epes : list Q) : list (Q * bool) :=
  match epes with
  | [] => []
  | e :: rest => best_step best e :: best_track (fst (best_step best e)) rest
  end.

(** ** What a phase may do

    [triple P m Q E]: from a state with [P], however [m] ends, the final
    state has [Q] and the log has only grown, by events that are all
    in [E]. *)
Definition triple {A} (P : state -> Prop) (m : M A) (Q : state -> Prop)
    (E : event -> Prop) : Prop :=
  forall s, P s ->
    Q (snd (m s)) /\
    exists evs, trace (snd (m s)) = trace s ++ evs /\ Forall E evs.

(** The model is in train ([t = true]) or eval mode and gradient
    tracking is on ([g = true]) or off. *)
Definition in_mode (t g : bool) (s : state) : Prop :=
  training s = t /\ grad_enabled s = g.

(** The events of a pass of [train] under gradient mode [g]. *)
Definition train_event (g : bool) (e : event) : Prop :=
  match e with
  | EvForward t g' _ => t = true /\ g' = g
  | EvScalar w _ _ _ => w = "train"%string
  | EvDebug _ _ | EvProgress _ _ _ _ _ | EvZeroGrad | EvBackward _ | EvStep => True
  | _ => False
  end.

(** The events of a pass of [validate] under gradient mode [g]. *)
Definition validate_event (g : bool) (e : event) : Prop :=
  match e with
  | EvForward t g' _ => t = false /\ g' = g
  | EvImage _ _ _ _ | EvTest _ _ _ | EvMeanEPE _ => True
  | _ => False
  end.

(** The events of a pass of the epoch loop of [main]. *)
Definition epoch_event (e : event) : Prop :=
  match e with
  | EvForward t g _ => (t = true /\ g = true) \/ (t = false /\ g = false)
  | EvOptimizer _ | EvScheduler _ => False
  | _ => True
  end.

(** Mode and gradient mode of each forward pass, in order. *)
Definition forward_flags (tr : list event) : list (bool * bool) :=
  flat_map (fun e => match e with EvForward t g _ => [(t, g)] | _ => [] end) tr.

(** The images handed to the output writers, in order: writer and tag. *)
Definition images (tr : list event) : list (Z * string) :=
  flat_map (fun e => match e with EvImage w tag _ _ => [(w, tag)] | _ => [] end) tr.

(** [enumerate(xs)], counting from [i]. *)
Fixpoint enumerate {A} (i : Z) (xs : list A) : list (Z * A) :=
  match xs with
  | [] => []
  | x :: rest => (i, x) :: enumerate (i + 1) rest
  end.

(** The scheduler steps in the log. *)
Definition scheduler_steps (tr : list event) : Z :=
  Z.of_nat (List.length
    (filter (fun e => match e with EvSchedulerStep => true | _ => false end) tr)).

End Traces.

(** ** A small concrete backend

    Tensors are flat lists of integers, the network has one weight and
    a two-level pyramid.  It serves to run the driver on examples. *)

Module Toy.

Definition zip_add (t u : list Z) : list Z :=
  map (fun p => fst p + snd p) (combine t u).

Definition hd0 (t : list Z) : Z := hd 0 t.

(** A Python number times an integer entry, rounded down. *)
Definition scale (c : Q) (x : Z) : Z := Qfloor (inject_Z x * c).

#[local] Instance torch : Torch := {|
  tensor := list Z;
  params := Z;
  grads := Z;
  optstate := Z;
  cat := @List.concat Z;
  tmul t c := map (scale c) t;
  tadd := zip_add;
  tadd_scalar t c := map (fun x => x + Qfloor c) t;
  item t := inject_Z (hd0 t);
  size0 _ := 1;
  interpolate t _ := t;
  forward_train w x := [map (fun v => w * v) x; [w]];
  forward_eval w x := map (fun v => w * v) x;
  ternary_loss a b f _ := [hd0 a * hd0 f];
  smoothness_loss f _ := [hd0 f];
  ssim_loss_fn a b f := [1 + hd0 f];
  forward_backward_loss a b fw bw _ := [hd0 fw + hd0 bw];
  photometric_loss a b f _ := [hd0 a + hd0 f];
  weighted_smoothness_loss a b f _ := [hd0 b + hd0 f];
  multiscaleEPE out target ws _ := [hd0 (List.concat out) - hd0 target];
  realEPE o t _ := [Z.abs (hd0 o - hd0 t)];
  gzero := 0;
  gacc g w t := g + hd0 t;
  opt_step o os w g := (os + 1, w - g);
  flow2rgb t := t;
  first t := t;
  input_image _ t := t
|}.

Definition args0 : Args := {|
  dataset := "flying_chairs";
  arch := "flownets";
  pretrained := None;
  solver := "adam";
  epoch_size := 1000;
  multiscale_weights := [5 # 1000; 1 # 100; 2 # 100; 8 # 100; 32 # 100];
  sparse := false;
  print_freq := 200;
  evaluate := false;
  div_flow := 20;
  milestones := [100; 150; 200];
  self_supervised_loss := true;
  unflow := true
|}.

Definition with_epoch_size (a : Args) (n : Z) : Args := {|
  dataset := dataset a; arch := arch a;
  pretrained := pretrained a; solver := solver a;
  epoch_size := n; multiscale_weights := multiscale_weights a;
  sparse := sparse a; print_freq := print_freq a; evaluate := evaluate a;
  div_flow := div_flow a; milestones := milestones a;
  self_supervised_loss := self_supervised_loss a; unflow := unflow a
|}.

Definition with_evaluate (a : Args) (b : bool) : Args := {|
  dataset := dataset a; arch := arch a;
  pretrained := pretrained a; solver := solver a;
  epoch_size := epoch_size a; multiscale_weights := multiscale_weights a;
  sparse := sparse a; print_freq := print_freq a; evaluate := b;
  div_flow := div_flow a; milestones := milestones a;
  self_supervised_loss := self_supervised_loss a; unflow := unflow a
|}.

Definition with_variant (a : Args) (ss uf : bool) : Args := {|
  dataset := dataset a; arch := arch a;
  pretrained := pretrained a; solver := solver a;
  epoch_size := epoch_size a; multiscale_weights := multiscale_weights a;
  sparse := sparse a; print_freq := print_freq a; evaluate := evaluate a;
  div_flow := div_flow a; milestones := milestones a;
  self_supervised_loss := ss; unflow := uf
|}.

Definition with_epochs (c : config) (n : Z) : config := {|
  sl_weight := sl_weight c; pl_weight := pl_weight c; fb_weight := fb_weight c;
  sl_exp := sl_exp c; pl_exp := pl_exp c; fb_exp := fb_exp c;
  weighted_sl_loss := weighted_sl_loss c; epochs := n;
  multiscale_sl_loss := multiscale_sl_loss c;
  multiscale_pl_loss := multiscale_pl_loss c;
  multiscale_census_loss := multiscale_census_loss c;
  multiscale_ssim_loss := multiscale_ssim_loss c;
  multiscale_fb_loss := multiscale_fb_loss c;
  use_l1_loss := use_l1_loss c; cfg_unflow := cfg_unflow c;
  sl := sl c; census := census c; ssim := ssim c; fb := fb c
|}.

(** All four terms of the unflow variant on, over all levels or over
    the finest level only. *)
Definition with_terms (c : config) (multiscale : bool) : config := {|
  sl_weight := sl_weight c; pl_weight := pl_weight c; fb_weight := fb_weight c;
  sl_exp := sl_exp c; pl_exp := pl_exp c; fb_exp := fb_exp c;
  weighted_sl_loss := weighted_sl_loss c; epochs := epochs c;
  multiscale_sl_loss := multiscale;
  multiscale_pl_loss := multiscale;
  multiscale_census_loss := multiscale;
  multiscale_ssim_loss := multiscale;
  multiscale_fb_loss := multiscale;
  use_l1_loss := use_l1_loss c; cfg_unflow := cfg_unflow c;
  sl := true; census := true; ssim := true; fb := true
|}.

(** A batch: an image pair and a target flow. *)
Definition batch_of (a b t : Z) : batch := ([[a]; [b]], [t]).

Definition five_batches : list batch :=
  [batch_of 1 2 3; batch_of 2 3 4; batch_of 3 4 5; batch_of 4 5 6; batch_of 5 6 7].

Definition s0 : state := init_state 1 0.

Definition no_meters : meters := (meter_reset, meter_reset).

(** One batch of the unflow variant, and a run of [main] over two epochs. *)
Notation unflow_run target :=
  (unflow_batch (TT := torch) args0 get_default_config Adam 0 5 0
     ([[1]; [2]], target) no_meters s0).

Notation main_run :=
  (main (TT := torch) (with_epoch_size args0 2) (with_epochs get_default_config 2)
     (fun _ => five_batches) [batch_of 1 2 3] (init_state (TT := torch) 1 0)).

Definition with_print_freq (a : Args) (n : Z) : Args := {|
  dataset := dataset a; arch := arch a;
  pretrained := pretrained a; solver := solver a;
  epoch_size := epoch_size a; multiscale_weights := multiscale_weights a;
  sparse := sparse a; print_freq := n; evaluate := evaluate a;
  div_flow := div_flow a; milestones := milestones a;
  self_supervised_loss := self_supervised_loss a; unflow := unflow a
|}.

(** All four terms of the unflow variant off. *)
Definition without_terms (c : config) : config := {|
  sl_weight := sl_weight c; pl_weight := pl_weight c; fb_weight := fb_weight c;
  sl_exp := sl_exp c; pl_exp := pl_exp c; fb_exp := fb_exp c;
  weighted_sl_loss := weighted_sl_loss c; epochs := epochs c;
  multiscale_sl_loss := multiscale_sl_loss c;
  multiscale_pl_loss := multiscale_pl_loss c;
  multiscale_census_loss := multiscale_census_loss c;
  multiscale_ssim_loss := multiscale_ssim_loss c;
  multiscale_fb_loss := multiscale_fb_loss c;
  use_l1_loss := use_l1_loss c; cfg_unflow := cfg_unflow c;
  sl := false; census := false; ssim := false; fb := false
|}.

(** A pass of [train] over five batches capped at two, one batch of
    each other variant, and a pass of [validate] over two batches with
    one output writer. *)
Notation train_run :=
  (train (TT := torch) (with_epoch_size args0 2) get_default_config
     five_batches Adam 0 s0).

Notation supervised_run :=
  (supervised_batch (TT := torch) (with_variant args0 false true) Adam 0 5 0
     ([[1]; [2]], [3]) no_meters s0).

Notation selfsup_run :=
  (selfsup_batch (TT := torch) (with_variant args0 true false)
     get_default_config Adam 0 5 0 ([[1]; [2]], [3]) no_meters s0).

Notation validate_run :=
  (validate (TT := torch) args0 [batch_of 1 2 3; batch_of 4 5 6] 0 1 s0).

(** One batch of the unflow variant with all four terms on. *)
Notation unflow_all_run :=
  (unflow_batch (TT := torch) args0 (with_terms get_default_config true)
     Adam 0 5 0 ([[100]; [200]], [3]) no_meters s0).



(** The result of a run, with a default for a run that raised. *)
Definition value {A} (d : A) (r : outcome A * state) : A :=
  match fst r with Ok a => a | Raise _ => d end.

(** The run has returned rather than raised. *)
Definition returns {A} (r : outcome A * state) : Prop :=
  match fst r with Ok _ => True | Raise _ => False end.

End Toy.

(** * Properties *)

Section LevelLoops.
Context `{TT : Torch}.

(** With the flag off the loop stops after its first index. *)
Lemma over_levels_first (term : nat -> outcome tensor) i rest acc lst :
  over_levels term false (i :: rest) acc lst =
  obind (term i) (fun l => Ok (py_add acc (PTens l), lst ++ [item l])).
Proof. simpl. destruct (term i); reflexivity. Qed.


Lemma terms_on_seq (g : nat -> outcome tensor) ls :
  forall start,
    (forall i l, nth_error ls i = Some l -> g (start + i)%nat = Ok l) ->
    Forall2 (fun i l => g i = Ok l) (seq start (List.length ls)) ls.
Proof.
  induction ls as [|l ls IH]; intros start H; simpl; constructor.
  - specialize (H 0%nat l eq_refl). now rewrite Nat.add_0_r in H.
  - apply IH. intros i x Hx. rewrite Nat.add_succ_comm. now apply (H (S i)).
Qed.


Lemma nth_error_combine {A B} (xs : list A) (ys : list B) i p :
  nth_error (combine xs ys) i = Some p ->
  nth_error xs i = Some (fst p) /\ nth_error ys i = Some (snd p).
Proof.
  revert ys i. induction xs as [|x xs IH]; intros [|y ys] [|i]; simpl;
    try discriminate.
  - intros [= <-]. now split.
  - apply IH.
Qed.

Lemma scaled_at args (pred : list tensor) i f :
  nth_error pred i = Some f -> scaled args pred i = Ok (tmul f (div_flow args)).
Proof. intros H. unfold scaled, index. now rewrite H. Qed.

(** A term that reads both pyramids is defined on every common level. *)
Lemma paired_terms args (h : tensor -> tensor -> tensor)
    (pred_fw pred_bw : list tensor) i l :
  nth_error (map (fun p => h (tmul (fst p) (div_flow args))
                             (tmul (snd p) (div_flow args)))
                 (combine pred_fw pred_bw)) i = Some l ->
  obind (scaled args pred_fw i) (fun flow_fw =>
  obind (scaled args pred_bw i) (fun flow_bw => Ok (h flow_fw flow_bw))) = Ok l.
Proof.
  rewrite nth_error_map.
  destruct (nth_error (combine pred_fw pred_bw) i) as [p|] eqn:E; [|discriminate].
  intros [= <-]. apply nth_error_combine in E as [Hf Hb].
  now rewrite (scaled_at args _ _ Hf), (scaled_at args _ _ Hb).
Qed.



(** Adding up tensors does not depend on their order once the tensor
    addition is associative and commutative and adding [0] changes
    nothing. *)
Section Order.
Hypothesis tadd_comm : forall t u : tensor, tadd t u = tadd u t.
Hypothesis tadd_assoc : forall t u v : tensor, tadd (tadd t u) v = tadd t (tadd u v).



End Order.

(** Adding the integer [0], or a float that equals zero, to a tensor
    changes nothing: the law of the backend under which the sums below
    are the sums of the terms alone. *)
Section Zero.
Hypothesis tadd_zero : forall (t : tensor) (q : Q), q == 0 -> tadd_scalar t q = t.

Lemma zero_plus (t : tensor) : py_add (PInt 0) (PTens t) = PTens t.
Proof. cbn [py_add]. now rewrite tadd_zero. Qed.




(** The sum of the unflow variant over the terms that are tensors. *)
Lemma combined_loss_sum (c l m f : pyval) (t : tensor) :
  (c = PInt 0 \/ exists x, c = PTens x) ->
  (l = PInt 0 \/ exists x, l = PTens x) ->
  (m = PInt 0 \/ exists x, m = PTens x) ->
  (f = PInt 0 \/ exists x, f = PTens x) ->
  combined_loss c l m f = PTens t ->
  PTens t = sum_levels (tensors c ++ tensors l ++ tensors m ++
                        map (fun x => tmul x (1 # 1000)) (tensors f)).
Proof.
  intros [-> | [c' ->]] [-> | [l' ->]] [-> | [m' ->]] [-> | [f' ->]] H;
    unfold combined_loss in H; cbn [py_add py_rmul] in H;
    cbn [tensors app map sum_levels fold_left];
    try discriminate;
    rewrite ?tadd_zero in H by reflexivity;
    now injection H as <-.
Qed.

End Zero.

End LevelLoops.

Section LevelClaims.
Context `{TT : Torch}.
Variable args : Args.
Variable cfg : config.
Variables im1 im2 : tensor.

(** C4. With a term's multiscale flag off, the loop over a pyramid of
    any length N >= 1 yields the term at level 0 and nothing else,
    whatever the further levels are, and the diagnostic list holds
    that one value.  (The accumulator starts from the integer 0, and
    adding 0 to a tensor leaves it as it is.) *)
Theorem single_scale_is_level_0 (f0 b0 : tensor) (rest_fw rest_bw : list tensor) :
  (forall (t : tensor) (q : Q), q == 0 -> tadd_scalar t q = t) ->
  (multiscale_census_loss cfg = false ->
   census_levels args cfg im1 im2 (f0 :: rest_fw) (b0 :: rest_bw) =
   Ok (PTens (census_at args im1 im2 (f0, b0)),
       [item (census_at args im1 im2 (f0, b0))])) /\
  (multiscale_sl_loss cfg = false ->
   sl_levels args cfg (f0 :: rest_fw) (b0 :: rest_bw) =
   Ok (PTens (sl_at args cfg (f0, b0)), [item (sl_at args cfg (f0, b0))])) /\
  (multiscale_ssim_loss cfg = false ->
   ssim_levels args cfg im1 im2 (b0 :: rest_bw) =
   Ok (PTens (ssim_at args im1 im2 b0), [item (ssim_at args im1 im2 b0)])) /\
  (multiscale_fb_loss cfg = false ->
   fb_levels args cfg im1 im2 (f0 :: rest_fw) (b0 :: rest_bw) =
   Ok (PTens (fb_at args cfg im1 im2 (f0, b0)),
       [item (fb_at args cfg im1 im2 (f0, b0))])).
Proof.
  intros Hz.
  unfold census_levels, sl_levels, ssim_levels, fb_levels, range.
  repeat split; intros ->; cbn [List.length seq];
    rewrite over_levels_first;
    match goal with
    | |- _ = Ok (PTens ?t, _) =>
        transitivity (Ok (py_add (PInt 0) (PTens t), [item t]) : outcome (pyval * list Q));
        [reflexivity | now rewrite (zero_plus Hz)]
    end.
Qed.


End LevelClaims.

(** ** Reasoning about driver computations *)

Section Hoare.
Context `{TT : Torch}.

Lemma wp_ret {A} (a : A) s post : post a s -> wp (ret a) s post.
Proof. intros H b s' [= <- <-]. exact H. Qed.

Lemma wp_bind {A B} (m : M A) (f : A -> M B) s post :
  wp m s (fun a s1 => wp (f a) s1 post) -> wp (bind m f) s post.
Proof.
  intros H b s' E. unfold bind in E.
  destruct (m s) as [[a|e] s1] eqn:Em; [|discriminate].
  exact (H a s1 Em b s' E).
Qed.

Lemma wp_lift {A} (o : outcome A) s post :
  (forall a, o = Ok a -> post a s) -> wp (lift o) s post.
Proof. intros H a s' [= -> <-]. now apply H. Qed.

Lemma wp_gets {A} (f : state -> A) s post : post (f s) s -> wp (gets f) s post.
Proof. intros H a s' [= <- <-]. exact H. Qed.

Lemma wp_modify (f : state -> state) s post : post tt (f s) -> wp (modify f) s post.
Proof. intros H a s' [= <- <-]. exact H. Qed.

Lemma wp_raise {A} e s (post : A -> state -> Prop) : wp (raise e) s post.
Proof. intros a s' [=]. Qed.

Lemma wp_conseq {A} (m : M A) s (post post' : A -> state -> Prop) :
  wp m s post -> (forall a s', post a s' -> post' a s') -> wp m s post'.
Proof. intros H K a s' E. apply K, (H a s' E). Qed.

Lemma forwards_app (t u : list event) : forwards (t ++ u) = forwards t ++ forwards u.
Proof. apply flat_map_app. Qed.

Lemma backwards_app (t u : list event) : backwards (t ++ u) = backwards t ++ backwards u.
Proof. apply flat_map_app. Qed.

Lemma forward_modes_app (t u : list event) :
  forward_modes (t ++ u) = forward_modes t ++ forward_modes u.
Proof. apply flat_map_app. Qed.

Lemma steps_app (t u : list event) : steps (t ++ u) = steps t + steps u.
Proof. unfold steps. rewrite filter_app, length_app. lia. Qed.

Lemma steps_single (e : event) : steps [e] = if is_step e then 1 else 0.
Proof. unfold steps. cbn [filter]. now destruct (is_step e). Qed.

Lemma same_core_refl s : same_core s s.
Proof. unfold same_core. tauto. Qed.

Lemma same_core_trans s1 s2 s3 : same_core s1 s2 -> same_core s2 s3 -> same_core s1 s3.
Proof. unfold same_core. intuition congruence. Qed.

End Hoare.

(** One step of symbolic execution of a driver computation. *)
Ltac wp_step :=
  lazymatch goal with
  | |- wp (bind _ _) _ _ => apply wp_bind
  | |- wp (ret _) _ _ => apply wp_ret
  | |- wp (lift _) _ _ => apply wp_lift; intros ? ?
  | |- wp (gets _) _ _ => apply wp_gets
  | |- wp (modify _) _ _ => apply wp_modify
  | |- wp (raise _) _ _ => apply wp_raise
  | |- wp (if ?b then _ else _) _ _ => destruct b eqn:?
  end.

Ltac wp_run :=
  repeat (wp_step;
          cbn [n_iter best_EPE grad_enabled training weights grad opt trace]).

(** The counters of an explicitly extended state. *)
Ltac count_simpl :=
  cbn [n_iter trace];
  rewrite ?steps_app, ?steps_single;
  cbn [is_step].

(** Splitting the observations of an extended trace. *)
Ltac trace_simpl :=
  cbn [n_iter best_EPE grad_enabled training weights grad opt trace];
  rewrite ?forwards_app, ?backwards_app, ?steps_app, ?forward_modes_app;
  cbn [forwards backwards forward_modes flat_map steps filter is_step
       List.length app Z.of_nat];
  rewrite ?app_nil_r, ?Z.add_0_r.

Section BatchSpecs.
Context `{TT : Torch}.
Variable args : Args.
Variable cfg : config.
Variable optim : optimizer.
Variables epoch size : Z.

Lemma add_scalar_item_spec tag v s :
  wp (add_scalar_item tag v) s
     (fun _ s' => same_core s s' /\ exists t, v = PTens t).
Proof.
  unfold add_scalar_item, emit. wp_run.
  split.
  - unfold same_core. trace_simpl. tauto.
  - destruct v; try discriminate. eauto.
Qed.

Lemma logged_term_spec enabled tag levels s :
  wp (logged_term enabled tag levels) s
     (fun r s' => same_core s s' /\ term_value enabled levels (fst r)).
Proof.
  unfold logged_term, term_value. destruct enabled.
  - wp_run. eapply wp_conseq; [apply add_scalar_item_spec|].
    intros _ s1 [Hc Ht]. wp_run. split; [exact Hc|].
    exists (snd a). subst levels. split; [now destruct a | exact Ht].
  - wp_run. split; [apply same_core_refl | reflexivity].
Qed.

Lemma progress_spec it ms s :
  wp (progress args epoch size it ms) s (fun _ s' => same_core s s').
Proof.
  unfold progress, emit. wp_run.
  - unfold same_core. trace_simpl. tauto.
  - apply same_core_refl.
Qed.

Lemma incr_n_iter_spec s :
  wp incr_n_iter s
     (fun _ s' => n_iter s' = n_iter s + 1 /\ best_EPE s' = best_EPE s /\
                  grad_enabled s' = grad_enabled s /\ training s' = training s /\
                  weights s' = weights s /\ grad s' = grad s /\ opt s' = opt s /\
                  trace s' = trace s).
Proof. unfold incr_n_iter, set_n_iter. wp_run. cbn. tauto. Qed.

(** The predictor driver: two forward passes on the two channel orders. *)
Lemma predict_both_spec input s :
  wp (predict_both input) s
     (fun r s' =>
        exists im1 im2,
          index input 0 = Ok im1 /\ index input 1 = Ok im2 /\
          r = (im1, im2, forward_train (weights s) (cat input),
               forward_train (weights s) (cat [im2; im1])) /\
          trace s' = trace s ++
                     [EvForward (training s) (grad_enabled s) (cat input);
                      EvForward (training s) (grad_enabled s) (cat [im2; im1])] /\
          n_iter s' = n_iter s /\ best_EPE s' = best_EPE s /\
          grad_enabled s' = grad_enabled s /\ training s' = training s /\
          weights s' = weights s /\ grad s' = grad s /\ opt s' = opt s).
Proof.
  unfold predict_both, model_pyramid, emit. wp_run.
  exists a, a0. cbn. rewrite <- !app_assoc. cbn. tauto.
Qed.

(** The gradient step of a batch: [zero_grad], [backward], [step]. *)
Lemma gradient_step_spec (loss : pyval) (k : M meters) s post :
  (forall t s',
      loss = PTens t ->
      trace s' = trace s ++ [EvZeroGrad; EvBackward t; EvStep] ->
      n_iter s' = n_iter s -> best_EPE s' = best_EPE s ->
      grad_enabled s' = grad_enabled s -> training s' = training s ->
      grad s' = gacc gzero (weights s) t ->
      weights s' = snd (opt_step optim (opt s) (weights s) (gacc gzero (weights s) t)) ->
      opt s' = fst (opt_step optim (opt s) (weights s) (gacc gzero (weights s) t)) ->
      wp k s' post) ->
  wp (zero_grad ;; backward loss ;; optimizer_step optim ;; k) s post.
Proof.
  intros H. unfold zero_grad, backward, optimizer_step. wp_run.
  destruct loss as [z|q|t]; try discriminate.
  match goal with E : py_tensor _ = Ok _ |- _ => injection E as <- end.
  apply (H t); cbn; try reflexivity.
  now rewrite <- !app_assoc.
Qed.

End BatchSpecs.

Section UnflowBatch.
Context `{TT : Torch}.
Variable args : Args.
Variable cfg : config.
Variable optim : optimizer.
Variables epoch size : Z.

Lemma unflow_batch_spec it input target ms s :
  wp (unflow_batch args cfg optim epoch size it (input, target) ms) s
     (unflow_outcome args cfg optim input target ms s).
Proof.
  unfold unflow_batch.
  apply wp_bind. eapply wp_conseq; [apply predict_both_spec|].
  intros r s1 (im1 & im2 & Hi1 & Hi2 & -> & Ht1 & Hn1 & Hb1 & Hg1 & Hm1 & Hw1 & Hd1 & Ho1).
  cbn beta iota.
  apply wp_bind. eapply wp_conseq; [apply logged_term_spec|].
  intros [c cl] s2 [Hc2 Hv2]. cbn beta iota.
  apply wp_bind. eapply wp_conseq; [apply logged_term_spec|].
  intros [l ll] s3 [Hc3 Hv3]. cbn beta iota.
  apply wp_bind. eapply wp_conseq; [apply logged_term_spec|].
  intros [m ml] s4 [Hc4 Hv4]. cbn beta iota.
  apply wp_bind. eapply wp_conseq; [apply logged_term_spec|].
  intros [f fl] s5 [Hc5 Hv5]. cbn beta iota.
  apply wp_bind.
  apply wp_conseq with (post := fun _ s6 => same_core s5 s6).
  { unfold emit. wp_run; [|apply same_core_refl].
    unfold same_core. trace_simpl. tauto. }
  intros _ s6 Hc6. cbn beta iota. cbn [fst] in *.
  apply wp_bind, wp_lift. intros b0 Hb0. cbn beta.
  apply wp_bind, wp_lift. intros x Hx. cbn beta.
  apply wp_bind. eapply wp_conseq; [apply add_scalar_item_spec|].
  intros _ s7 [Hc7 [t Ht]]. cbn beta.
  apply gradient_step_spec.
  intros t' s8 Hloss Ht8 Hn8 Hb8 Hg8 Hm8 Hd8 Hw8 Ho8.
  apply wp_bind. eapply wp_conseq; [apply progress_spec|].
  intros u9 s9 Hc9. cbn beta.
  apply wp_bind. eapply wp_conseq; [apply incr_n_iter_spec|].
  intros _ s10 (Hn10 & Hb10 & Hg10 & Hm10 & Hw10 & Hd10 & Ho10 & Ht10). cbn beta.
  apply wp_ret.
  assert (Et : t' = t) by congruence.
  assert (Ex : x = item t).
  { rewrite Ht in Hx. now injection Hx as <-. }
  rewrite Et in *. rewrite Ex in *. clear Et Ex.
  assert (H17 : same_core s1 s7).
  { repeat (eapply same_core_trans; [eassumption|]). apply same_core_refl. }
  destruct H17 as (Kn & Kb & Kg & Km & Kw & Kd & Ko & Kf & Kbw & Ks).
  destruct Hc9 as (Ln & Lb & Lg & Lm & Lw & Ld & Lo & Lf & Lbw & Ls).
  exists im1, im2, c, l, m, f, t, b0. cbn zeta.
  rewrite Kw, Hw1, Ko, Ho1 in *.
  repeat split; try assumption; try congruence.
  - rewrite Ht10, Lf, Ht8, forwards_app, Kf, Ht1, forwards_app. cbn.
    now rewrite app_nil_r.
  - rewrite Ht10, Lbw, Ht8, backwards_app, Kbw, Ht1, backwards_app. cbn.
    now rewrite app_nil_r.
  - rewrite Ht10, Ls, Ht8, steps_app, Ks, Ht1, steps_app. cbn. lia.
Qed.

(** Every variant's body, when it returns, has advanced [n_iter] by one
    and taken one optimizer step. *)
Lemma supervised_batch_counts i b ms s :
  wp (supervised_batch args optim epoch size i b ms) s
     (fun _ s' => n_iter s' = n_iter s + 1 /\
                  steps (trace s') = steps (trace s) + 1).
Proof.
  destruct b as [input target].
  unfold supervised_batch, model_pyramid, add_scalar_item, zero_grad, backward,
    optimizer_step, progress, incr_n_iter, set_n_iter, emit.
  wp_run; count_simpl; lia.
Qed.

Lemma selfsup_batch_counts it b ms s :
  wp (selfsup_batch args cfg optim epoch size it b ms) s
     (fun _ s' => n_iter s' = n_iter s + 1 /\
                  steps (trace s') = steps (trace s) + 1).
Proof.
  destruct b as [input target].
  unfold selfsup_batch, model_pyramid, add_scalar_item, zero_grad, backward,
    optimizer_step, progress, incr_n_iter, set_n_iter, emit.
  wp_run; count_simpl; lia.
Qed.

Lemma unflow_batch_counts it b ms s :
  wp (unflow_batch args cfg optim epoch size it b ms) s
     (fun _ s' => n_iter s' = n_iter s + 1 /\
                  steps (trace s') = steps (trace s) + 1).
Proof.
  destruct b as [input target].
  eapply wp_conseq; [apply unflow_batch_spec|].
  intros r s' H. unfold unflow_outcome in H.
  destruct H as (im1 & im2 & c & l & m & f & t & b0 & H). cbn zeta in H.
  intuition.
Qed.

End UnflowBatch.

(** ** The batch loop and [train] *)

Section TrainLoop.
Context `{TT : Torch}.
Variable args : Args.
Variable cfg : config.
Variable optim : optimizer.
Variable epoch : Z.

Lemma train_body_counts size it b ms s :
  wp (train_body args cfg optim epoch size it b ms) s
     (fun _ s' => n_iter s' = n_iter s + 1 /\
                  steps (trace s') = steps (trace s) + 1).
Proof.
  unfold train_body. destruct (train_variant args).
  - apply supervised_batch_counts.
  - apply unflow_batch_counts.
  - apply selfsup_batch_counts.
Qed.

(** The loop of [train] gets through [processed size it n] batches. *)
Lemma batch_loop_counts size body :
  (forall it b ms s,
      wp (body it b ms) s
         (fun _ s' => n_iter s' = n_iter s + 1 /\
                      steps (trace s') = steps (trace s) + 1)) ->
  forall bs it ms s,
    wp (batch_loop size body it bs ms) s
       (fun _ s' =>
          n_iter s' = n_iter s + processed size it (List.length bs) /\
          steps (trace s') = steps (trace s) + processed size it (List.length bs)).
Proof.
  intros Hbody. unfold processed.
  induction bs as [|b bs IH]; intros it ms s; cbn [batch_loop List.length].
  - apply wp_ret. cbn. lia.
  - apply wp_bind. eapply wp_conseq; [apply Hbody|].
    intros ms' s1 [Hn Hs]. cbn beta.
    destruct (it >=? size) eqn:E.
    + apply wp_ret. apply Z.geb_le in E. lia.
    + eapply wp_conseq; [apply IH|].
      intros r s2 [Hn2 Hs2]. cbn beta in *.
      rewrite Z.geb_leb in E. apply Z.leb_gt in E. lia.
Qed.

Lemma train_counts train_loader s :
  wp (train args cfg train_loader optim epoch) s
     (fun _ s' =>
        let k := processed (train_epoch_size args train_loader) 0
                           (List.length train_loader) in
        n_iter s' = n_iter s + k /\ steps (trace s') = steps (trace s) + k).
Proof.
  unfold train, set_training.
  apply wp_bind, wp_modify. apply wp_bind.
  eapply wp_conseq; [apply batch_loop_counts; intros; apply train_body_counts|].
  intros ms s1 [Hn Hs]. cbn beta. apply wp_ret. cbn zeta. cbn in Hn, Hs. lia.
Qed.

(** The cap read off the command line: all batches when [epoch_size] is
    0 or at least the number of batches, one more than [epoch_size]
    when it lies strictly between, and a single batch when it is
    negative. *)
Lemma processed_by_train train_loader :
  let len := Z.of_nat (List.length train_loader) in
  processed (train_epoch_size args train_loader) 0 (List.length train_loader) =
  if epoch_size args =? 0 then len
  else if len <=? epoch_size args then len
  else if 0 <? epoch_size args then epoch_size args + 1
  else Z.min len 1.
Proof.
  cbn zeta. unfold processed, train_epoch_size.
  destruct (epoch_size args =? 0) eqn:E0.
  - lia.
  - destruct (Z.leb_spec (Z.of_nat (List.length train_loader)) (epoch_size args));
      [lia|].
    destruct (Z.ltb_spec 0 (epoch_size args)); lia.
Qed.

End TrainLoop.

(** ** Frames *)

Section Frames.
Context `{TT : Torch}.

Lemma untouched_refl s : untouched s s.
Proof. unfold untouched. tauto. Qed.

Lemma untouched_trans s1 s2 s3 : untouched s1 s2 -> untouched s2 s3 -> untouched s1 s3.
Proof. unfold untouched. intuition congruence. Qed.

Lemma frame_ret {A} (a : A) : frame (ret a).
Proof. intros s. apply untouched_refl. Qed.

Lemma frame_raise {A} e : frame (@raise _ A e).
Proof. intros s. apply untouched_refl. Qed.

Lemma frame_lift {A} (o : outcome A) : frame (lift o).
Proof. intros s. apply untouched_refl. Qed.

Lemma frame_gets {A} (f : state -> A) : frame (gets f).
Proof. intros s. apply untouched_refl. Qed.

Lemma frame_bind {A B} (m : M A) (f : A -> M B) :
  frame m -> (forall a, frame (f a)) -> frame (bind m f).
Proof.
  intros Hm Hf s. unfold bind. specialize (Hm s).
  destruct (m s) as [[a|e] s1]; cbn in *.
  - eapply untouched_trans; [exact Hm | apply Hf].
  - exact Hm.
Qed.

Lemma frame_emit e :
  backwards [e] = [] -> steps [e] = 0 -> frame (emit e).
Proof.
  intros Hb Hs s. unfold untouched, emit, modify.
  cbn [snd n_iter best_EPE grad_enabled training weights grad opt trace].
  rewrite backwards_app, steps_app, Hb, Hs, app_nil_r. intuition lia.
Qed.

Lemma frame_set_training b : frame (set_training b).
Proof. intros s. unfold untouched. cbn. tauto. Qed.

Lemma frame_with_no_grad {A} (m : M A) : frame m -> frame (with_no_grad m).
Proof.
  intros Hm s. unfold with_no_grad. specialize (Hm (set_grad_enabled false s)).
  destruct (m (set_grad_enabled false s)) as [r s1].
  unfold untouched in *. cbn in *. tauto.
Qed.

Lemma frame_wp {A} (m : M A) s :
  frame m -> wp m s (fun _ s' => untouched s s').
Proof. intros Hm a s' E. specialize (Hm s). now rewrite E in Hm. Qed.

Lemma extends_ret {A} (a : A) : extends (ret a).
Proof. intros s. exists []. cbn. now rewrite app_nil_r. Qed.

Lemma extends_raise {A} e : extends (@raise _ A e).
Proof. intros s. exists []. cbn. now rewrite app_nil_r. Qed.

Lemma extends_lift {A} (o : outcome A) : extends (lift o).
Proof. intros s. exists []. cbn. now rewrite app_nil_r. Qed.

Lemma extends_gets {A} (f : state -> A) : extends (gets f).
Proof. intros s. exists []. cbn. now rewrite app_nil_r. Qed.

Lemma extends_modify (f : state -> state) :
  (forall s, exists evs, trace (f s) = trace s ++ evs) -> extends (modify f).
Proof. intros H s. exact (H s). Qed.

Lemma extends_bind {A B} (m : M A) (f : A -> M B) :
  extends m -> (forall a, extends (f a)) -> extends (bind m f).
Proof.
  intros Hm Hf s. unfold bind. destruct (Hm s) as [evs Hevs].
  destruct (m s) as [[a|e] s1]; cbn in *.
  - destruct (Hf a s1) as [evs' Hevs']. exists (evs ++ evs').
    now rewrite Hevs', Hevs, app_assoc.
  - now exists evs.
Qed.

Lemma extends_with_no_grad {A} (m : M A) : extends m -> extends (with_no_grad m).
Proof.
  intros Hm s. unfold with_no_grad.
  destruct (Hm (set_grad_enabled false s)) as [evs Hevs].
  destruct (m (set_grad_enabled false s)) as [r s1]. now exists evs.
Qed.

End Frames.

Ltac frame_step :=
  lazymatch goal with
  | |- frame (bind _ _) => apply frame_bind; [|intros]
  | |- frame (ret _) => apply frame_ret
  | |- frame (raise _) => apply frame_raise
  | |- frame (lift _) => apply frame_lift
  | |- frame (gets _) => apply frame_gets
  | |- frame (emit _) => apply frame_emit; reflexivity
  | |- frame (set_training _) => apply frame_set_training
  | |- frame (if ?b then _ else _) => destruct b
  end.

Ltac extends_step :=
  lazymatch goal with
  | |- extends (bind _ _) => apply extends_bind; [|intros]
  | |- extends (ret _) => apply extends_ret
  | |- extends (raise _) => apply extends_raise
  | |- extends (lift _) => apply extends_lift
  | |- extends (gets _) => apply extends_gets
  | |- extends (modify _) =>
      apply extends_modify; intros ?; cbn [trace];
      first [ now eexists | exists []; now rewrite app_nil_r ]
  | |- extends (with_no_grad _) => apply extends_with_no_grad
  | |- extends (if ?b then _ else _) => destruct b
  | |- extends (match ?x with _ => _ end) => destruct x
  end.

Section Phases.
Context `{TT : Torch}.
Variable args : Args.

Lemma validate_batch_frame epoch nw nb i b m :
  frame (validate_batch args epoch nw nb i b m).
Proof.
  destruct b as [input target].
  unfold validate_batch, model_flow, log_images.
  repeat frame_step.
Qed.

Lemma validate_loop_frame epoch nw nb bs :
  forall i m, frame (validate_loop args epoch nw nb i bs m).
Proof.
  induction bs as [|b bs IH]; intros i m; cbn [validate_loop].
  - apply frame_ret.
  - apply frame_bind; [apply validate_batch_frame | intros; apply IH].
Qed.

(** [validate] leaves the parameters, the gradients, the optimizer and
    the counters as they are and takes no backward pass and no
    optimizer step, however it ends. *)
Lemma validate_frame val_loader epoch nw : frame (validate args val_loader epoch nw).
Proof.
  unfold validate. apply frame_bind; [apply frame_set_training | intros _].
  apply frame_bind; [apply validate_loop_frame | intros m].
  repeat frame_step.
Qed.

Lemma epoch_end_counts epoch e s :
  wp (epoch_end args epoch e) s
     (fun _ s' => n_iter s' = n_iter s /\ steps (trace s') = steps (trace s)).
Proof.
  unfold epoch_end, save_checkpoint, set_best_EPE, emit.
  wp_run; count_simpl; lia.
Qed.

End Phases.

(** ** The whole run *)

Section Whole.
Context `{TT : Torch}.
Variable args : Args.
Variable cfg : config.

Lemma train_body_extends optim epoch size it b ms :
  extends (train_body args cfg optim epoch size it b ms).
Proof.
  destruct b as [input target].
  unfold train_body, supervised_batch, unflow_batch, selfsup_batch, predict_both,
    logged_term, model_pyramid, add_scalar_item, zero_grad, backward,
    optimizer_step, progress, incr_n_iter, set_n_iter, emit.
  destruct (train_variant args); repeat extends_step.
Qed.

Lemma batch_loop_extends size body :
  (forall it b ms, extends (body it b ms)) ->
  forall bs it ms, extends (batch_loop size body it bs ms).
Proof.
  intros Hbody. induction bs as [|b bs IH]; intros it ms; cbn [batch_loop].
  - apply extends_ret.
  - apply extends_bind; [apply Hbody|]. intros ms'.
    destruct (it >=? size); [apply extends_ret | apply IH].
Qed.

Lemma train_extends train_loader optim epoch :
  extends (train args cfg train_loader optim epoch).
Proof.
  unfold train, set_training.
  apply extends_bind; [extends_step | intros _].
  apply extends_bind; [|intros; apply extends_ret].
  apply batch_loop_extends. intros. apply train_body_extends.
Qed.

Lemma validate_loop_extends epoch nw nb bs :
  forall i m, extends (validate_loop args epoch nw nb i bs m).
Proof.
  induction bs as [|[input target] bs IH]; intros i m; cbn [validate_loop].
  - apply extends_ret.
  - apply extends_bind; [|intros; apply IH].
    unfold validate_batch, model_flow, log_images, emit. repeat extends_step.
Qed.

Lemma validate_extends val_loader epoch nw :
  extends (validate args val_loader epoch nw).
Proof.
  unfold validate, set_training, emit.
  apply extends_bind; [extends_step | intros _].
  apply extends_bind; [apply validate_loop_extends | intros m].
  repeat extends_step.
Qed.

Lemma epoch_end_extends epoch e : extends (epoch_end args epoch e).
Proof.
  unfold epoch_end, save_checkpoint, set_best_EPE, emit. repeat extends_step.
Qed.

Lemma run_epoch_extends train_loader val_loader optim epoch :
  extends (run_epoch args cfg train_loader val_loader optim epoch).
Proof.
  unfold run_epoch.
  apply extends_bind; [apply train_extends | intros [train_loss train_EPE]].
  unfold emit.
  do 2 (apply extends_bind; [extends_step | intros _]).
  apply extends_bind;
    [apply extends_with_no_grad, validate_extends | intros EPE].
  apply extends_bind; [extends_step | intros _].
  apply epoch_end_extends.
Qed.

Lemma for_each_extends body xs :
  (forall x, extends (body x)) -> extends (for_each body xs).
Proof.
  intros Hbody. induction xs as [|x xs IH]; cbn [for_each].
  - apply extends_ret.
  - apply extends_bind; [apply Hbody | intros _; exact IH].
Qed.

(** Through one pass of the epoch loop the counter and the number of
    optimizer steps move together. *)
Lemma run_epoch_counts train_loader val_loader optim epoch s :
  wp (run_epoch args cfg train_loader val_loader optim epoch) s
     (fun _ s' => n_iter s' - steps (trace s') = n_iter s - steps (trace s)).
Proof.
  unfold run_epoch.
  apply wp_bind. eapply wp_conseq; [apply train_counts|].
  intros [train_loss train_EPE] s1 [Hn1 Hs1]. cbn beta iota zeta in *.
  unfold emit. apply wp_bind, wp_modify. apply wp_bind, wp_modify.
  apply wp_bind.
  eapply wp_conseq; [apply frame_wp, frame_with_no_grad, validate_frame|].
  intros EPE s2 Hu. cbn beta.
  apply wp_bind, wp_modify.
  eapply wp_conseq; [apply epoch_end_counts|].
  intros u s3 [Hn3 Hs3]. cbn beta in *.
  rewrite Hn3, Hs3. count_simpl.
  destruct Hu as (Hn2 & _ & _ & _ & _ & _ & _ & Hs2).
  revert Hn2 Hs2. count_simpl. lia.
Qed.

Lemma for_each_counts body xs :
  (forall x s, wp (body x) s
     (fun _ s' => n_iter s' - steps (trace s') = n_iter s - steps (trace s))) ->
  forall s, wp (for_each body xs) s
     (fun _ s' => n_iter s' - steps (trace s') = n_iter s - steps (trace s)).
Proof.
  intros Hbody. induction xs as [|x xs IH]; intros s; cbn [for_each].
  - now apply wp_ret.
  - apply wp_bind. eapply wp_conseq; [apply Hbody|].
    intros u s1 H1. cbn beta.
    eapply wp_conseq; [apply IH|]. intros u' s2 H2. cbn beta in *. lia.
Qed.

End Whole.

Section Main.
Context `{TT : Torch}.
Variable args : Args.
Variable cfg : config.

Lemma main_counts train_loader val_loader s :
  wp (main args cfg train_loader val_loader) s
     (fun _ s' => n_iter s' - steps (trace s') = n_iter s - steps (trace s)).
Proof.
  unfold main. cbn zeta.
  set (a1 := if contains "KITTI" (dataset args) then set_sparse args true else args).
  set (a2 := match pretrained a1 with Some a => set_arch a1 a | None => a1 end).
  apply wp_bind.
  destruct (known_solver (solver a2)); [apply wp_ret | apply wp_raise].
  unfold emit at 1. apply wp_bind, wp_modify.
  destruct (evaluate a2).
  - apply wp_bind.
    eapply wp_conseq; [apply frame_wp, validate_frame|].
    intros e s1 Hu. cbn beta. unfold set_best_EPE. wp_run.
    destruct Hu as (Hn & _ & _ & _ & _ & _ & _ & Hs).
    revert Hn Hs. count_simpl. lia.
  - unfold emit. apply wp_bind, wp_modify. apply wp_bind.
    eapply wp_conseq; [apply for_each_counts; intros; apply run_epoch_counts|].
    intros u s1 H1. cbn beta. wp_run. revert H1. count_simpl. lia.
Qed.

End Main.

(** * The claims *)

Section BatchClaims.
Context `{TT : Torch}.
Variable args : Args.
Variable cfg : config.
Variable optim : optimizer.
Variables epoch size : Z.

(** C1. In the unflow variant, the loss that a batch optimizes is
    census_loss + sl_loss + ssim_loss + 0.001 * fb_loss, where each
    term is the tensor its loop over the pyramid returns when its flag
    is on and the integer 0 when its flag is off; the sum always has
    the four summands, and it is the one tensor handed to backward.
    In tensor operations: with all four terms on it is
    ((census + sl) + ssim) + fb * 0.001, and in general, adding zero
    leaving a tensor as it is, it is the sum of the terms that are on,
    in this order, the forward-backward term multiplied by 0.001. *)
Theorem unflow_loss_is_weighted_sum it input target ms s r s' :
  unflow_batch args cfg optim epoch size it (input, target) ms s = (Ok r, s') ->
  exists im1 im2 census_loss sl_loss ssim_loss fb_loss loss,
    let pred_fw := forward_train (weights s) (cat input) in
    let pred_bw := forward_train (weights s) (cat [im2; im1]) in
    index input 0 = Ok im1 /\ index input 1 = Ok im2 /\
    (if census cfg
     then exists lst, census_levels args cfg im1 im2 pred_fw pred_bw = Ok (census_loss, lst)
                      /\ exists t, census_loss = PTens t
     else census_loss = PInt 0) /\
    (if sl cfg
     then exists lst, sl_levels args cfg pred_fw pred_bw = Ok (sl_loss, lst)
                      /\ exists t, sl_loss = PTens t
     else sl_loss = PInt 0) /\
    (if ssim cfg
     then exists lst, ssim_levels args cfg im1 im2 pred_bw = Ok (ssim_loss, lst)
                      /\ exists t, ssim_loss = PTens t
     else ssim_loss = PInt 0) /\
    (if fb cfg
     then exists lst, fb_levels args cfg im1 im2 pred_fw pred_bw = Ok (fb_loss, lst)
                      /\ exists t, fb_loss = PTens t
     else fb_loss = PInt 0) /\
    py_add (py_add (py_add census_loss sl_loss) ssim_loss)
           (py_rmul (1 # 1000) fb_loss) = PTens loss /\
    backwards (trace s') = backwards (trace s) ++ [loss] /\
    (forall c l m f : tensor,
        census_loss = PTens c -> sl_loss = PTens l -> ssim_loss = PTens m ->
        fb_loss = PTens f ->
        loss = tadd (tadd (tadd c l) m) (tmul f (1 # 1000))) /\
    ((forall (t : tensor) (q : Q), q == 0 -> tadd_scalar t q = t) ->
     PTens loss =
     sum_levels (tensors census_loss ++ tensors sl_loss ++ tensors ssim_loss ++
                 map (fun t => tmul t (1 # 1000)) (tensors fb_loss))).
Proof.
  intros H. apply unflow_batch_spec in H.
  destruct H as (im1 & im2 & c & l & m & f & t & b0 & H). cbn zeta in H.
  destruct H as (H1 & H2 & Hc & Hl & Hm & Hf & Ht & _ & _ & _ & Hbw & _).
  exists im1, im2, c, l, m, f, t. cbn zeta. unfold term_value in *.
  repeat (split; [assumption|]). split.
  - intros c0 l0 m0 f0 -> -> -> ->. cbn [py_add py_rmul] in Ht.
    now injection Ht as <-.
  - intros Hz. apply (combined_loss_sum Hz); [| | | |exact Ht].
    + destruct (census cfg); [destruct Hc as (? & _ & ?); now right | now left].
    + destruct (sl cfg); [destruct Hl as (? & _ & ?); now right | now left].
    + destruct (ssim cfg); [destruct Hm as (? & _ & ?); now right | now left].
    + destruct (fb cfg); [destruct Hf as (? & _ & ?); now right | now left].
Qed.

(** C6. The predictor driver of the unflow variant returns
    pred_fw = model(cat(im1, im2)) and pred_bw = model(cat(im2, im1)),
    and a batch of the unflow variant runs the model on exactly these
    two inputs, in this order, and on nothing else. *)
Theorem predictor_runs_model_twice it im1 im2 target ms s :
  fst (predict_both [im1; im2] s) =
    Ok (im1, im2, forward_train (weights s) (cat [im1; im2]),
        forward_train (weights s) (cat [im2; im1])) /\
  trace (snd (predict_both [im1; im2] s)) =
    trace s ++ [EvForward (training s) (grad_enabled s) (cat [im1; im2]);
                EvForward (training s) (grad_enabled s) (cat [im2; im1])] /\
  forall r s',
    unflow_batch args cfg optim epoch size it ([im1; im2], target) ms s = (Ok r, s') ->
    forwards (trace s') = forwards (trace s) ++ [cat [im1; im2]; cat [im2; im1]].
Proof.
  split; [reflexivity|]. split.
  - cbn. now rewrite <- app_assoc.
  - intros r s' H. apply unflow_batch_spec in H.
    destruct H as (i1 & i2 & c & l & m & f & t & b0 & H). cbn zeta in H.
    destruct H as (H1 & H2 & _ & _ & _ & _ & _ & _ & _ & Hf & _).
    cbn in H1, H2. injection H1 as <-. injection H2 as <-. exact Hf.
Qed.

(** C7. In the unflow variant, the endpoint-error value recorded for a
    batch is the item of div_flow times realEPE of pred_bw[0] against
    the target; it goes into the EPE meter only: the tensor handed to
    backward, the gradients, the parameters and the optimizer state
    after the batch are the same whatever the target is. *)
Theorem epe_diagnostic_not_optimized it input target ms s r s' :
  unflow_batch args cfg optim epoch size it (input, target) ms s = (Ok r, s') ->
  (exists im1 im2 b0,
      index input 0 = Ok im1 /\ index input 1 = Ok im2 /\
      index (forward_train (weights s) (cat [im2; im1])) 0 = Ok b0 /\
      snd r = meter_update (snd ms)
                (item (tmul (realEPE b0 target (sparse args)) (div_flow args)))
                (size0 target)) /\
  (forall target2 ms2 r2 s2,
      unflow_batch args cfg optim epoch size it (input, target2) ms2 s = (Ok r2, s2) ->
      backwards (trace s2) = backwards (trace s') /\
      grad s2 = grad s' /\ weights s2 = weights s' /\ opt s2 = opt s').
Proof.
  intros H. apply unflow_batch_spec in H.
  destruct H as (im1 & im2 & c & l & m & f & t & b0 & H). cbn zeta in H.
  destruct H as (H1 & H2 & Hc & Hl & Hm & Hf & Ht & Hb0 & Hr & _ & Hbw & _ & _
                 & Hg & Hw & Ho & _).
  split.
  - exists im1, im2, b0. subst r. cbn [snd]. auto.
  - intros target2 ms2 r2 s2 H. apply unflow_batch_spec in H.
    destruct H as (im1' & im2' & c' & l' & m' & f' & t' & b0' & H). cbn zeta in H.
    destruct H as (H1' & H2' & Hc' & Hl' & Hm' & Hf' & Ht' & _ & _ & _ & Hbw' & _ & _
                   & Hg' & Hw' & Ho' & _).
    assert (im1' = im1) as -> by congruence.
    assert (im2' = im2) as -> by congruence.
    assert (Ec : c' = c).
    { unfold term_value in Hc, Hc'. destruct (census cfg); [|congruence].
      destruct Hc as [x [Hx _]], Hc' as [x' [Hx' _]]. congruence. }
    assert (El : l' = l).
    { unfold term_value in Hl, Hl'. destruct (sl cfg); [|congruence].
      destruct Hl as [x [Hx _]], Hl' as [x' [Hx' _]]. congruence. }
    assert (Em : m' = m).
    { unfold term_value in Hm, Hm'. destruct (ssim cfg); [|congruence].
      destruct Hm as [x [Hx _]], Hm' as [x' [Hx' _]]. congruence. }
    assert (Ef : f' = f).
    { unfold term_value in Hf, Hf'. destruct (fb cfg); [|congruence].
      destruct Hf as [x [Hx _]], Hf' as [x' [Hx' _]]. congruence. }
    subst c' l' m' f'.
    assert (t' = t) as -> by congruence.
    repeat split; congruence.
Qed.

End BatchClaims.

(** ** The end of an epoch *)

Section Checkpoints.
Context `{TT : Torch}.
Local Open Scope Q_scope.

Lemma py_lt_true a b : py_lt a b = true <-> a < b.
Proof.
  unfold py_lt. rewrite negb_true_iff. split.
  - intros H. apply Qnot_le_lt. intros Hle.
    apply Qle_bool_iff in Hle. congruence.
  - intros H. destruct (Qle_bool b a) eqn:E; [|reflexivity].
    apply Qle_bool_iff in E. now apply Qlt_not_le in H.
Qed.

Lemma py_lt_false a b : py_lt a b = false <-> b <= a.
Proof.
  unfold py_lt. rewrite negb_false_iff. apply Qle_bool_iff.
Qed.

Lemma saved_app (t u : list event) : saved (t ++ u) = saved t ++ saved u.
Proof. apply flat_map_app. Qed.

(** One pass through the end-of-epoch code. *)
Lemma epoch_end_run args k e s :
  let b1 := if py_lt (best_EPE s) 0 then e else best_EPE s in
  exists s1,
    epoch_end args k e s = (Ok tt, s1) /\
    best_EPE s1 = py_min e b1 /\ weights s1 = weights s /\
    trace s1 = trace s ++
      [EvCheckpoint {| ck_epoch := (k + 1)%Z; ck_arch := arch args;
                       ck_state_dict := weights s;
                       ck_best_EPE := py_min e b1;
                       ck_div_flow := div_flow args |} (py_lt e b1)].
Proof.
  cbn zeta.
  unfold epoch_end, save_checkpoint, set_best_EPE, emit, bind, gets, modify, ret.
  destruct (py_lt (best_EPE s) 0);
    cbn [n_iter best_EPE grad_enabled training weights grad opt trace];
    eexists; repeat split.
Qed.

(** What the new best value and the flag are, given the EPEs [pre] of
    the earlier epochs. *)
Lemma best_update (pre : list Q) (best e : Q) :
  0 <= e ->
  (pre = [] /\ best < 0) \/ (pre <> [] /\ is_min best pre /\ 0 <= best) ->
  let b1 := if py_lt best 0 then e else best in
  is_min (py_min e b1) (pre ++ [e]) /\ 0 <= py_min e b1 /\
  (py_lt e b1 = true <-> pre <> [] /\ Forall (fun x => e < x) pre).
Proof.
  intros He [[-> Hb] | (Hpre & [Hin Hall] & Hb)]; cbn zeta.
  - apply py_lt_true in Hb. rewrite Hb. unfold py_min.
    assert (E : py_lt e e = false) by (apply py_lt_false, Qle_refl).
    rewrite E. split; [|split; [|split]].
    + split; [now left|]. constructor; [apply Qle_refl | constructor].
    + exact He.
    + discriminate.
    + now intros [H _].
  - assert (E : py_lt best 0 = false) by now apply py_lt_false.
    rewrite E. unfold py_min. split; [|split; [|split]].
    + split.
      * destruct (py_lt best e); apply in_or_app; [left | right; left]; auto.
      * destruct (py_lt best e) eqn:L.
        -- apply py_lt_true in L. apply Forall_app. split; [exact Hall|].
           constructor; [now apply Qlt_le_weak | constructor].
        -- apply py_lt_false in L. apply Forall_app. split.
           ++ eapply Forall_impl; [|exact Hall]. intros x Hx. cbn in Hx.
              now apply Qle_trans with best.
           ++ constructor; [apply Qle_refl | constructor].
    + now destruct (py_lt best e).
    + intros H. split; [exact Hpre|].
      apply py_lt_true in H. eapply Forall_impl; [|exact Hall].
      intros x Hx. cbn in Hx. now apply Qlt_le_trans with best.
    + intros [_ H]. apply py_lt_true.
      rewrite Forall_forall in H. now apply H.
Qed.

Lemma firstn_pre {A} (pre : list A) e rest :
  firstn (List.length pre + 1) (pre ++ e :: rest) = pre ++ [e].
Proof.
  rewrite firstn_app, firstn_all2 by lia.
  replace (List.length pre + 1 - List.length pre)%nat with 1%nat by lia.
  reflexivity.
Qed.

Lemma firstn_pre0 {A} (pre : list A) rest :
  firstn (List.length pre) (pre ++ rest) = pre.
Proof.
  rewrite firstn_app, firstn_all2, Nat.sub_diag by lia.
  cbn. apply app_nil_r.
Qed.

End Checkpoints.

Section RunClaims.
Context `{TT : Torch}.

(** C9. A solver name other than adam and sgd is rejected before
    anything else happens: the command line parser exits, and main's
    own assertion fails, both leaving the state and the log as they
    were, so no training iteration runs.  For adam or sgd the
    construction of the corresponding optimizer is the first thing the
    run logs, ahead of the epoch loop. *)
Theorem solver_checked_before_training (name : string) rest cfg train_loader
    val_loader s :
  (name <> "adam"%string -> name <> "sgd"%string ->
   script (Some name) rest cfg train_loader val_loader s = (Raise SystemExit, s) /\
   main (set_solver rest name) cfg train_loader val_loader s =
     (Raise AssertionError, s)) /\
  (name = "adam"%string \/ name = "sgd"%string ->
   exists evs,
     trace (snd (script (Some name) rest cfg train_loader val_loader s)) =
     trace s ++ EvOptimizer (if String.eqb name "adam" then Adam else SGD) :: evs).
Proof.
  split.
  - intros Ha Hs.
    assert (K : known_solver name = false).
    { unfold known_solver. apply String.eqb_neq in Ha, Hs. now rewrite Ha, Hs. }
    split.
    + unfold script, parse_solver, bind, lift. now rewrite K.
    + unfold main. cbn zeta.
      set (a1 := if contains "KITTI" (dataset (set_solver rest name))
                 then set_sparse (set_solver rest name) true
                 else set_solver rest name).
      set (a2 := match pretrained a1 with Some a => set_arch a1 a | None => a1 end).
      assert (E : solver a2 = name).
      { subst a2 a1. destruct (contains _ _); cbn [pretrained set_sparse set_solver];
          destruct (pretrained rest); reflexivity. }
      rewrite E, K. reflexivity.
  - intros Hname.
    assert (K : known_solver name = true).
    { unfold known_solver. destruct Hname as [-> | ->]; reflexivity. }
    unfold script, parse_solver. rewrite K. unfold bind at 1. cbn [lift].
    unfold main. cbn zeta.
    set (a1 := if contains "KITTI" (dataset (set_solver rest name))
               then set_sparse (set_solver rest name) true
               else set_solver rest name).
    set (a2 := match pretrained a1 with Some a => set_arch a1 a | None => a1 end).
    assert (E : solver a2 = name).
    { subst a2 a1. destruct (contains _ _); cbn [pretrained set_sparse set_solver];
        destruct (pretrained rest); reflexivity. }
    rewrite E, K. unfold bind at 1. cbn [ret]. unfold bind at 1.
    unfold emit at 1. cbn [modify].
    match goal with
    | |- exists evs, trace (snd (?m ?st)) = _ =>
        assert (X : extends m); [|destruct (X st) as [evs Hevs]; exists evs]
    end.
    + destruct (evaluate a2).
      * apply extends_bind; [apply validate_extends | intros e].
        unfold set_best_EPE. repeat extends_step.
      * unfold emit. apply extends_bind; [extends_step | intros _].
        apply extends_bind;
          [apply for_each_extends; intros; apply run_epoch_extends | intros _].
        repeat extends_step.
    + rewrite Hevs. cbn [trace]. now rewrite <- app_assoc.
Qed.

(** C10. The counter n_iter is 0 at load; a returning pass through the
    loop body of any of the three training variants adds exactly 1 to
    it, alongside the one optimizer step of the batch; validation
    leaves it as it is, however it ends; and at the end of a returning
    run of main it equals the number of training batches processed
    over all epochs. *)
Theorem n_iter_counts_processed_batches :
  (forall w o, n_iter (init_state w o) = 0) /\
  (forall args cfg optim epoch size it b ms s r s',
      supervised_batch args optim epoch size it b ms s = (Ok r, s') \/
      unflow_batch args cfg optim epoch size it b ms s = (Ok r, s') \/
      selfsup_batch args cfg optim epoch size it b ms s = (Ok r, s') ->
      n_iter s' = n_iter s + 1 /\ steps (trace s') = steps (trace s) + 1) /\
  (forall args val_loader epoch n_writers s,
      n_iter (snd (validate args val_loader epoch n_writers s)) = n_iter s) /\
  (forall args cfg train_loader val_loader w o r s',
      main args cfg train_loader val_loader (init_state w o) = (Ok r, s') ->
      n_iter s' = steps (trace s')).
Proof.
  split; [reflexivity|]. split; [|split].
  - intros args cfg optim epoch size it b ms s r s' [H | [H | H]].
    + eapply supervised_batch_counts. exact H.
    + eapply unflow_batch_counts. exact H.
    + eapply selfsup_batch_counts. exact H.
  - intros args val_loader epoch nw s.
    apply (validate_frame args val_loader epoch nw s).
  - intros args cfg train_loader val_loader w o r s' H.
    apply main_counts in H. cbn in H. lia.
Qed.

End RunClaims.

(** * Runs on the small backend *)

Import Toy.
#[local] Existing Instance Toy.torch.



Lemma toy_add_zero (t : list Z) (q : Q) :
  q == 0 -> map (fun x => x + Qfloor q) t = t.
Proof.
  intros H. assert (E : Qfloor q = 0) by (rewrite H; reflexivity).
  rewrite E. induction t as [|x t IH]; cbn; [reflexivity|].
  now rewrite IH, Z.add_0_r.
Qed.

(** A run that returns is the pair of its value and its final state. *)
Lemma returned {A} (d : A) (r : outcome A * state) :
  returns r -> r = (Ok (value d r), snd r).
Proof.
  destruct r as [[a|e] s]; unfold returns, value; cbn; [reflexivity | tauto].
Qed.

Lemma predictor_runs_model_twice_witness :
  exists r s',
    unflow_batch (TT := torch) args0 get_default_config Adam 0 5 0
      ([[1]; [2]], [3]) no_meters s0 = (Ok r, s') /\
    forwards (trace s') = forwards (trace s0) ++ [cat [[1]; [2]]; cat [[2]; [1]]].
Proof.
  assert (H := returned no_meters (unflow_run [3]) I).
  eexists _, _. split; [exact H|].
  exact (proj2 (proj2 (predictor_runs_model_twice (TT := torch) args0
                         get_default_config Adam 0 5 0 [1] [2] [3] no_meters s0))
               _ _ H).
Defined.

Lemma epe_diagnostic_not_optimized_witness :
  exists r s' r2 s2,
    unflow_batch (TT := torch) args0 get_default_config Adam 0 5 0
      ([[1]; [2]], [3]) no_meters s0 = (Ok r, s') /\
    unflow_batch (TT := torch) args0 get_default_config Adam 0 5 0
      ([[1]; [2]], [9]) no_meters s0 = (Ok r2, s2) /\
    backwards (trace s2) = backwards (trace s') /\
    grad s2 = grad s' /\ weights s2 = weights s' /\ opt s2 = opt s'.
Proof.
  assert (H := returned no_meters (unflow_run [3]) I).
  assert (H2 := returned no_meters (unflow_run [9]) I).
  eexists _, _, _, _. split; [exact H|]. split; [exact H2|].
  exact (proj2 (epe_diagnostic_not_optimized _ _ _ _ _ _ _ _ _ _ H) _ _ _ _ H2).
Defined.

Lemma solver_checked_before_training_witness :
  ("rmsprop"%string <> "adam"%string /\ "rmsprop"%string <> "sgd"%string /\
   script (TT := torch) (Some "rmsprop"%string) args0 get_default_config
     (fun _ => five_batches) five_batches s0 = (Raise SystemExit, s0)) /\
  (("sgd"%string = "adam"%string \/ "sgd"%string = "sgd"%string) /\
   exists evs,
     trace (snd (script (TT := torch) (Some "sgd"%string) args0 get_default_config
                   (fun _ => five_batches) five_batches s0)) =
     trace s0 ++ EvOptimizer SGD :: evs).
Proof.
  assert (Ha : "rmsprop"%string <> "adam"%string) by discriminate.
  assert (Hs : "rmsprop"%string <> "sgd"%string) by discriminate.
  assert (Hv : "sgd"%string = "adam"%string \/ "sgd"%string = "sgd"%string)
    by now right.
  split.
  - split; [exact Ha|]. split; [exact Hs|].
    exact (proj1 (proj1 (solver_checked_before_training (TT := torch) "rmsprop"
                           args0 get_default_config (fun _ => five_batches)
                           five_batches s0) Ha Hs)).
  - split; [exact Hv|].
    exact (proj2 (solver_checked_before_training (TT := torch) "sgd"
                    args0 get_default_config (fun _ => five_batches)
                    five_batches s0) Hv).
Defined.

Lemma n_iter_counts_processed_batches_witness :
  (exists r s',
      unflow_batch (TT := torch) args0 get_default_config Adam 0 5 0
        ([[1]; [2]], [3]) no_meters s0 = (Ok r, s') /\
      n_iter s' = n_iter s0 + 1) /\
  (exists r s',
      main (TT := torch) (with_epoch_size args0 2)
        (with_epochs get_default_config 2) (fun _ => five_batches)
        [batch_of 1 2 3] (init_state (TT := torch) 1 0) = (Ok r, s') /\
      n_iter s' = steps (trace s')).
Proof.
  split.
  - assert (H := returned no_meters (unflow_run [3]) I).
      eexists _, _. split; [exact H|].
    exact (proj1 (proj1 (proj2 n_iter_counts_processed_batches)
                    args0 get_default_config Adam 0 5 0 _ _ _ _ _
                    (or_intror (or_introl H)))).
  - assert (H := returned None main_run I).
    eexists _, _. split; [exact H|].
    exact (proj2 (proj2 (proj2 n_iter_counts_processed_batches))
                 _ _ _ _ _ _ _ _ H).
Defined.

(** C2 (defect of the code). With [--epoch-size 2] and five batches
    available the loop of [train] gets through three batches in each
    of the three variants, not through min(2, 5) = 2: the test
    [it >= epoch_size] comes after the body, so the batch with index
    [epoch_size] is still processed. *)
Theorem epoch_size_cap_is_off_by_one :
  let a := with_epoch_size args0 2 in
  let run v := train (TT := torch) (with_variant a (fst v) (snd v))
                 get_default_config five_batches Adam 0 s0 in
  train_epoch_size (TT := torch) a five_batches = 2 /\
  Z.min 2 (Z.of_nat (List.length five_batches)) = 2 /\
  train_variant (with_variant a false true) = Supervised /\
  steps (trace (snd (run (false, true)))) = 3 /\
  train_variant (with_variant a true true) = Unflow /\
  steps (trace (snd (run (true, true)))) = 3 /\
  train_variant (with_variant a true false) = SelfSupervised /\
  steps (trace (snd (run (true, false)))) = 3.
Proof. cbn zeta. repeat split; vm_compute; reflexivity. Qed.

(** C8 (defect of the code). In the evaluate-only mode, [main] calls
    [validate] outside [torch.no_grad()]: the forward passes of the
    validation run with gradient tracking on, whereas the validation
    at the end of an epoch runs them with gradient tracking off. *)
Theorem evaluate_only_keeps_gradients_on :
  let val_loader := [batch_of 1 2 3; batch_of 4 5 6] in
  let eval_only := main (TT := torch) (with_evaluate args0 true)
                     get_default_config (fun _ => five_batches) val_loader s0 in
  let one_epoch := main (TT := torch) args0 (with_epochs get_default_config 1)
                     (fun _ => []) val_loader s0 in
  fst eval_only = Ok None /\
  forward_modes (trace (snd eval_only)) = [true; true] /\
  forward_modes (trace (snd one_epoch)) = [false; false].
Proof. cbn zeta. repeat split; vm_compute; reflexivity. Qed.

(** * Further properties of the driver *)

(** ** What each phase may log *)

Section Triples.
Context `{TT : Torch}.

Lemma triple_ret {A} (P : state -> Prop) E (a : A) : triple P (ret a) P E.
Proof.
  intros s H. split; [exact H|]. exists []. cbn. now rewrite app_nil_r.
Qed.

Lemma triple_raise {A} (P : state -> Prop) E e : triple P (@raise _ A e) P E.
Proof.
  intros s H. split; [exact H|]. exists []. cbn. now rewrite app_nil_r.
Qed.

Lemma triple_lift {A} (P : state -> Prop) E (o : outcome A) : triple P (lift o) P E.
Proof.
  intros s H. split; [exact H|]. exists []. cbn. now rewrite app_nil_r.
Qed.

Lemma triple_gets {A} (P : state -> Prop) E (f : state -> A) : triple P (gets f) P E.
Proof.
  intros s H. split; [exact H|]. exists []. cbn. now rewrite app_nil_r.
Qed.

Lemma triple_modify (P Q : state -> Prop) (E : event -> Prop) f :
  (forall s, P s -> Q (f s) /\ exists evs, trace (f s) = trace s ++ evs /\ Forall E evs) ->
  triple P (modify f) Q E.
Proof. intros H s Hs. exact (H s Hs). Qed.

Lemma triple_bind {A B} (P R Q : state -> Prop) E (m : M A) (f : A -> M B) :
  triple P m R E -> (forall s, R s -> Q s) -> (forall a, triple R (f a) Q E) ->
  triple P (bind m f) Q E.
Proof.
  intros Hm HRQ Hf s Hs. unfold bind.
  destruct (Hm s Hs) as (HR & evs & Hevs & HE).
  destruct (m s) as [[a|e] s1]; cbn [snd] in *.
  - destruct (Hf a s1 HR) as (HQ & evs' & Hevs' & HE').
    split; [exact HQ|]. exists (evs ++ evs'). split.
    + now rewrite Hevs', Hevs, app_assoc.
    + apply Forall_app. now split.
  - split; [now apply HRQ|]. now exists evs.
Qed.

Lemma keeps_bind {A B} (I : state -> Prop) E (m : M A) (f : A -> M B) :
  triple I m I E -> (forall a, triple I (f a) I E) -> triple I (bind m f) I E.
Proof. intros Hm Hf. apply triple_bind with (R := I); auto. Qed.

Lemma triple_conseq {A} (P P' Q Q' : state -> Prop) (E E' : event -> Prop) (m : M A) :
  triple P m Q E ->
  (forall s, P' s -> P s) -> (forall s, Q s -> Q' s) -> (forall e, E e -> E' e) ->
  triple P' m Q' E'.
Proof.
  intros H HP HQ HE s Hs. destruct (H s (HP s Hs)) as (Hq & evs & Hevs & Hall).
  split; [now apply HQ|]. exists evs. split; [exact Hevs|].
  eapply Forall_impl; [|exact Hall]. exact HE.
Qed.

(** A phase run under [torch.no_grad()] sees gradient tracking off and
    gives the caller its gradient mode back. *)
Lemma triple_with_no_grad {A} (g : bool) (Q : state -> Prop) E (m : M A) :
  triple (fun s => grad_enabled s = false) m Q E ->
  triple (fun s => grad_enabled s = g) (with_no_grad m)
         (fun s => grad_enabled s = g) E.
Proof.
  intros H s Hs. unfold with_no_grad.
  destruct (H (set_grad_enabled false s) eq_refl) as (_ & evs & Hevs & HE).
  destruct (m (set_grad_enabled false s)) as [r s1]. cbn [snd] in *.
  split; [exact Hs|]. now exists evs.
Qed.

Lemma model_pyramid_keeps t g E x :
  E (EvForward t g x) ->
  triple (in_mode t g) (model_pyramid x) (in_mode t g) E.
Proof.
  intros HE s [Ht Hg]. unfold model_pyramid, emit, bind, gets, modify, ret.
  cbn [snd n_iter best_EPE grad_enabled training weights grad opt trace].
  split; [now split|]. eexists. split; [reflexivity|].
  rewrite Ht, Hg. now repeat constructor.
Qed.

Lemma model_flow_keeps t g E x :
  E (EvForward t g x) ->
  triple (in_mode t g) (model_flow x) (in_mode t g) E.
Proof.
  intros HE s [Ht Hg]. unfold model_flow, emit, bind, gets, modify, ret.
  cbn [snd n_iter best_EPE grad_enabled training weights grad opt trace].
  split; [now split|]. eexists. split; [reflexivity|].
  rewrite Ht, Hg. now repeat constructor.
Qed.

Lemma triple_wp {A} (P Q : state -> Prop) E (m : M A) s :
  triple P m Q E -> P s ->
  wp m s (fun _ s' => Q s' /\ exists evs, trace s' = trace s ++ evs /\ Forall E evs).
Proof. intros H Hs a s' Hrun. specialize (H s Hs). now rewrite Hrun in H. Qed.

End Triples.

(** One step through a computation that keeps an invariant on the mode. *)
Ltac keeps_modify :=
  apply triple_modify;
  let s := fresh "s" in let H := fresh "H" in
  intros s H;
  cbn [n_iter best_EPE grad_enabled training weights grad opt trace];
  (split; [exact H|]);
  first [ exists []; split; [now rewrite app_nil_r | constructor]
        | eexists; split; [reflexivity|]; repeat constructor ].

Ltac keeps_step :=
  lazymatch goal with
  | |- triple _ (bind _ _) _ _ => apply keeps_bind; [|intros]
  | |- triple _ (ret _) _ _ => apply triple_ret
  | |- triple _ (raise _) _ _ => apply triple_raise
  | |- triple _ (lift _) _ _ => apply triple_lift
  | |- triple _ (gets _) _ _ => apply triple_gets
  | |- triple _ (model_pyramid _) _ _ => apply model_pyramid_keeps; cbn; auto
  | |- triple _ (model_flow _) _ _ => apply model_flow_keeps; cbn; auto
  | |- triple _ (modify _) _ _ => keeps_modify
  | |- triple _ (if ?b then _ else _) _ _ => destruct b
  | |- triple _ (match ?x with _ => _ end) _ _ => destruct x
  end.

Section Discipline.
Context `{TT : Torch}.

Lemma train_body_keeps args cfg optim epoch size g it b ms :
  triple (in_mode true g) (train_body args cfg optim epoch size it b ms)
         (in_mode true g) (train_event g).
Proof.
  destruct b as [input target].
  unfold train_body, supervised_batch, unflow_batch, selfsup_batch, predict_both,
    logged_term, add_scalar_item, zero_grad, backward,
    optimizer_step, progress, incr_n_iter, set_n_iter, emit.
  destruct (train_variant args); repeat keeps_step.
Qed.

Lemma batch_loop_keeps size body (I : state -> Prop) E :
  (forall it b ms, triple I (body it b ms) I E) ->
  forall bs it ms, triple I (batch_loop size body it bs ms) I E.
Proof.
  intros Hbody. induction bs as [|b bs IH]; intros it ms; cbn [batch_loop].
  - apply triple_ret.
  - apply keeps_bind; [apply Hbody|]. intros ms'.
    destruct (it >=? size); [apply triple_ret | apply IH].
Qed.

Lemma set_training_enters t g E :
  triple (fun s => grad_enabled s = g) (set_training t) (in_mode t g) E.
Proof.
  apply triple_modify. intros s Hg.
  cbn [n_iter best_EPE grad_enabled training weights grad opt trace].
  split; [now split|]. exists []. split; [now rewrite app_nil_r | constructor].
Qed.

Lemma train_triple args cfg train_loader optim epoch g :
  triple (fun s => grad_enabled s = g) (train args cfg train_loader optim epoch)
         (in_mode true g) (train_event g).
Proof.
  unfold train.
  apply triple_bind with (R := in_mode true g); [apply set_training_enters | auto |].
  intros _. apply keeps_bind; [|intros; apply triple_ret].
  apply batch_loop_keeps. intros. apply train_body_keeps.
Qed.

Lemma validate_loop_keeps args epoch nw nb g bs :
  forall i m,
    triple (in_mode false g) (validate_loop args epoch nw nb i bs m)
           (in_mode false g) (validate_event g).
Proof.
  induction bs as [|[input target] bs IH]; intros i m; cbn [validate_loop].
  - apply triple_ret.
  - apply keeps_bind; [|intros; apply IH].
    unfold validate_batch, log_images, emit. repeat keeps_step.
Qed.

Lemma validate_triple args val_loader epoch nw g :
  triple (fun s => grad_enabled s = g) (validate args val_loader epoch nw)
         (in_mode false g) (validate_event g).
Proof.
  unfold validate.
  apply triple_bind with (R := in_mode false g); [apply set_training_enters | auto |].
  intros _. apply keeps_bind; [apply validate_loop_keeps | intros m].
  unfold emit. repeat keeps_step.
Qed.

(** X7. However a pass of [train] ends, it has only appended to the
    log, and only forward passes in train mode under the caller's
    gradient mode, scalars of the train writer, debug and progress
    lines, and zero_grad / backward / optimizer steps; it leaves the
    model in train mode and the gradient mode as it was. *)
Theorem train_logs_only_training_events args cfg train_loader optim epoch s :
  let s' := snd (train args cfg train_loader optim epoch s) in
  training s' = true /\ grad_enabled s' = grad_enabled s /\
  exists evs, trace s' = trace s ++ evs /\
              Forall (train_event (grad_enabled s)) evs.
Proof.
  cbn zeta.
  pose proof (@train_triple args cfg train_loader optim epoch (grad_enabled s)) as H.
  destruct (H s eq_refl) as ([Ht Hg] & evs & Hevs & HE).
  split; [exact Ht|]. split; [exact Hg|]. now exists evs.
Qed.

(** X8. However a pass of [validate] ends, it has only appended to the
    log, and only forward passes in eval mode under the caller's
    gradient mode, images, test lines and the mean-EPE line: no
    backward pass, no optimizer step, no checkpoint.  It leaves the
    model in eval mode and the counters, the parameters, the gradients
    and the optimizer state as they were. *)
Theorem validate_logs_only_validation_events args val_loader epoch n_writers s :
  let s' := snd (validate args val_loader epoch n_writers s) in
  training s' = false /\ grad_enabled s' = grad_enabled s /\
  n_iter s' = n_iter s /\ best_EPE s' = best_EPE s /\
  weights s' = weights s /\ grad s' = grad s /\ opt s' = opt s /\
  exists evs, trace s' = trace s ++ evs /\
              Forall (validate_event (grad_enabled s)) evs.
Proof.
  cbn zeta.
  pose proof (@validate_triple args val_loader epoch n_writers (grad_enabled s)) as H.
  destruct (H s eq_refl) as ([Ht Hg] & evs & Hevs & HE).
  destruct (validate_frame args val_loader epoch n_writers s)
    as (Hn & Hb & _ & Hw & Hd & Ho & _).
  repeat (split; [assumption|]). now exists evs.
Qed.

Lemma train_event_epoch e : train_event true e -> epoch_event e.
Proof. destruct e; cbn; tauto. Qed.

Lemma validate_event_epoch e : validate_event false e -> epoch_event e.
Proof. destruct e; cbn; tauto. Qed.

Lemma run_epoch_keeps args cfg train_loader val_loader optim epoch :
  triple (fun s => grad_enabled s = true)
         (run_epoch args cfg train_loader val_loader optim epoch)
         (fun s => grad_enabled s = true) epoch_event.
Proof.
  unfold run_epoch.
  apply keeps_bind.
  { eapply triple_conseq; [apply (@train_triple args cfg _ optim epoch true)
                          | auto | now intros s [_ H] | apply train_event_epoch]. }
  intros [train_loss train_EPE]. unfold emit.
  do 2 (apply keeps_bind; [keeps_step | intros _]).
  apply keeps_bind.
  { apply triple_with_no_grad with (Q := in_mode false false).
    eapply triple_conseq; [apply (@validate_triple args val_loader epoch 3 false)
                          | auto | auto | apply validate_event_epoch]. }
  intros EPE. apply keeps_bind; [keeps_step | intros _].
  unfold epoch_end, save_checkpoint, set_best_EPE, emit. repeat keeps_step.
Qed.

Lemma for_each_keeps (I : state -> Prop) E body xs :
  (forall x, triple I (body x) I E) -> triple I (for_each body xs) I E.
Proof.
  intros Hbody. induction xs as [|x xs IH]; cbn [for_each].
  - apply triple_ret.
  - apply keeps_bind; [apply Hbody | intros _; exact IH].
Qed.

Lemma forward_flags_app (t u : list event) :
  forward_flags (t ++ u) = forward_flags t ++ forward_flags u.
Proof. apply flat_map_app. Qed.

Lemma epoch_flags evs :
  Forall (fun e => epoch_event e \/ exists o, e = EvOptimizer o \/ exists ms, e = EvScheduler ms) evs ->
  Forall (fun f => f = (true, true) \/ f = (false, false)) (forward_flags evs).
Proof.
  induction 1 as [|e evs He _ IH]; [constructor|].
  change (e :: evs) with ([e] ++ evs). rewrite forward_flags_app.
  apply Forall_app. split; [|exact IH].
  destruct e; cbn [forward_flags flat_map app]; try constructor; [|constructor].
  destruct He as [He | [o [He | [ms He]]]]; try discriminate.
  cbn in He. destruct He as [[-> ->] | [-> ->]]; auto.
Qed.

(** X11. In a run of [main] that is not evaluate-only and starts with
    gradient tracking on, however the run ends, every forward pass is
    either a training pass (train mode, gradient tracking on) or a
    validation pass (eval mode, gradient tracking off). *)
Theorem epoch_loop_modes args cfg train_loader val_loader s :
  evaluate args = false -> grad_enabled s = true ->
  exists evs,
    trace (snd (main args cfg train_loader val_loader s)) = trace s ++ evs /\
    Forall (fun f => f = (true, true) \/ f = (false, false)) (forward_flags evs).
Proof.
  intros Hev Hg.
  assert (H : triple (fun s => grad_enabled s = true)
                (main args cfg train_loader val_loader)
                (fun s => grad_enabled s = true)
                (fun e => epoch_event e \/
                          exists o, e = EvOptimizer o \/ exists ms, e = EvScheduler ms)).
  { unfold main. cbn zeta.
    set (a1 := if contains "KITTI" (dataset args) then set_sparse args true else args).
    set (a2 := match pretrained a1 with Some a => set_arch a1 a | None => a1 end).
    assert (E : evaluate a2 = false).
    { subst a2 a1. destruct (contains _ _); cbn [pretrained set_sparse];
        destruct (pretrained args); exact Hev. }
    rewrite E. unfold emit.
    apply keeps_bind; [destruct (known_solver _); keeps_step | intros _].
    apply keeps_bind.
    { apply triple_modify. intros s0 H0.
      cbn [n_iter best_EPE grad_enabled training weights grad opt trace].
      split; [exact H0|]. eexists. split; [reflexivity|].
      constructor; [|constructor]. right. eexists. left. reflexivity. }
    intros _. apply keeps_bind.
    { apply triple_modify. intros s0 H0.
      cbn [n_iter best_EPE grad_enabled training weights grad opt trace].
      split; [exact H0|]. eexists. split; [reflexivity|].
      constructor; [|constructor]. right. exists Adam. right. eexists. reflexivity. }
    intros _. apply keeps_bind.
    { eapply triple_conseq;
        [apply for_each_keeps; intros; apply run_epoch_keeps | auto | auto | now left]. }
    intros _. repeat keeps_step. }
  destruct (H s Hg) as (_ & evs & Hevs & HE).
  exists evs. split; [exact Hevs|]. now apply epoch_flags.
Qed.

End Discipline.

(** ** Edge behaviour of a pass of [train] *)

Section TrainEdges.
Context `{TT : Torch}.

(** X1. A pass of [train] that returns has processed all batches when
    [args.epoch_size] is 0 or at least the number of batches,
    [args.epoch_size + 1] batches when it lies strictly between, and
    one batch (none on an empty loader) when it is negative; [n_iter]
    and the number of optimizer steps have both grown by that number. *)
Theorem train_batch_count args cfg train_loader optim epoch s r s' :
  train args cfg train_loader optim epoch s = (Ok r, s') ->
  let len := Z.of_nat (List.length train_loader) in
  let k := if epoch_size args =? 0 then len
           else if len <=? epoch_size args then len
           else if 0 <? epoch_size args then epoch_size args + 1
           else Z.min len 1 in
  n_iter s' = n_iter s + k /\ steps (trace s') = steps (trace s) + k.
Proof.
  intros H. apply train_counts in H. cbn zeta in *.
  rewrite processed_by_train in H. exact H.
Qed.

Lemma progress_never args epoch size it ms s :
  print_freq args = 0 ->
  wp (progress args epoch size it ms) s (fun _ _ => False).
Proof. intros H. unfold progress. rewrite H. cbn [Z.eqb]. apply wp_raise. Qed.

Lemma train_body_never args cfg optim epoch size it b ms s :
  print_freq args = 0 ->
  wp (train_body args cfg optim epoch size it b ms) s (fun _ _ => False).
Proof.
  intros H. destruct b as [input target].
  unfold train_body, supervised_batch, unflow_batch, selfsup_batch, predict_both,
    logged_term, model_pyramid, add_scalar_item, zero_grad, backward,
    optimizer_step, emit.
  destruct (train_variant args);
    repeat first
      [ lazymatch goal with
        | |- wp (progress _ _ _ _ _) _ _ =>
            eapply wp_conseq; [apply progress_never; exact H | intros ? ? []]
        end
      | wp_step;
        cbn [n_iter best_EPE grad_enabled training weights grad opt trace] ].
Qed.

(** X2. With [--print-freq 0] the test [it % args.print_freq == 0]
    divides by zero: a pass of [train] over a non-empty loader never
    returns, in any of the three variants, and neither does a pass of
    [validate] over a non-empty loader. *)
Theorem print_freq_zero_never_returns args cfg optim epoch n_writers
    (b : batch) (bs : list batch) s :
  print_freq args = 0 ->
  (forall r s', train args cfg (b :: bs) optim epoch s <> (Ok r, s')) /\
  (forall r s', validate args (b :: bs) epoch n_writers s <> (Ok r, s')).
Proof.
  intros H. split; intros r s' Hrun.
  - assert (W : wp (train args cfg (b :: bs) optim epoch) s (fun _ _ => False)).
    { unfold train, set_training. cbn [batch_loop].
      apply wp_bind, wp_modify. apply wp_bind, wp_bind.
      eapply wp_conseq; [apply train_body_never; exact H | intros ? ? []]. }
    exact (W r s' Hrun).
  - assert (W : wp (validate args (b :: bs) epoch n_writers) s (fun _ _ => False)).
    { destruct b as [input target].
      unfold validate, set_training. cbn [validate_loop].
      unfold validate_batch, model_flow, log_images, emit. rewrite H. cbn [Z.eqb].
      wp_run. }
    exact (W r s' Hrun).
Qed.

(** X3. With all four loss terms of the unflow variant switched off
    the combined loss is the Python float 0.0, which has no [item]: a
    batch with two images raises [AttributeError] ([IndexError] if the
    model returned an empty pyramid) after its two forward passes and
    before any backward pass or optimizer step; [n_iter], the
    parameters and the optimizer state are as before. *)
Theorem all_terms_off_raises args cfg optim epoch size it im1 im2 rest target ms s :
  census cfg = false -> sl cfg = false -> ssim cfg = false -> fb cfg = false ->
  let run := unflow_batch args cfg optim epoch size it (im1 :: im2 :: rest, target)
               ms s in
  fst run = Raise (match forward_train (weights s) (cat [im2; im1]) with
                   | [] => IndexError
                   | _ :: _ => AttributeError
                   end) /\
  forwards (trace (snd run)) =
    forwards (trace s) ++ [cat (im1 :: im2 :: rest); cat [im2; im1]] /\
  backwards (trace (snd run)) = backwards (trace s) /\
  steps (trace (snd run)) = steps (trace s) /\
  n_iter (snd run) = n_iter s /\ weights (snd run) = weights s /\
  opt (snd run) = opt s.
Proof.
  intros Hc Hs Hm Hf. cbn zeta.
  unfold unflow_batch, predict_both, logged_term, model_pyramid, emit.
  rewrite Hc, Hs, Hm, Hf.
  unfold bind, lift, gets, modify, ret.
  cbn [index nth_error fst snd n_iter best_EPE grad_enabled training weights grad
       opt trace].
  destruct (it mod 500 =? 0);
    cbn [fst snd n_iter best_EPE grad_enabled training weights grad opt trace];
    destruct (forward_train (weights s) (cat [im2; im1])) as [|b0 pyr];
    cbn [index nth_error fst snd n_iter best_EPE grad_enabled training weights
         grad opt trace combined_loss py_add py_rmul py_item py_tensor obind];
    rewrite ?forwards_app, ?backwards_app, ?steps_app, ?steps_single;
    cbn [forwards backwards flat_map app is_step];
    rewrite ?app_nil_r, <- ?app_assoc; cbn [app];
    repeat split; lia.
Qed.

(** X4. A batch whose input holds fewer than two images makes the
    unflow and the single-direction self-supervised variant raise
    [IndexError] at [input[0]] or [input[1]], before any forward pass:
    the state and the log are untouched. *)
Theorem short_input_raises args cfg optim epoch size it input target ms s :
  (List.length input < 2)%nat ->
  unflow_batch args cfg optim epoch size it (input, target) ms s
    = (Raise IndexError, s) /\
  selfsup_batch args cfg optim epoch size it (input, target) ms s
    = (Raise IndexError, s).
Proof.
  intros H. destruct input as [|x [|y input]]; cbn in H; try lia;
    split; reflexivity.
Qed.

End TrainEdges.

Section EpochEndEdges.
Context `{TT : Torch}.

(** X13. Whenever [best_EPE] is negative at the end of an epoch (the
    initial -1, or a negative value stored earlier), the epoch's EPE
    replaces it, whatever the two values are, and the record goes to
    the checkpoint sink with [is_best] false. *)
Theorem negative_best_is_overwritten args epoch (EPE : Q) s :
  (best_EPE s < 0)%Q ->
  exists s',
    epoch_end args epoch EPE s = (Ok tt, s') /\
    best_EPE s' = EPE /\
    saved (trace s') =
      saved (trace s) ++
      [({| ck_epoch := epoch + 1; ck_arch := arch args;
           ck_state_dict := weights s; ck_best_EPE := EPE;
           ck_div_flow := div_flow args |}, false)].
Proof.
  intros H. destruct (epoch_end_run args epoch EPE s) as (s' & Hrun & Hb & _ & Ht).
  apply py_lt_true in H. rewrite H in Hb, Ht.
  assert (E : py_lt EPE EPE = false) by (apply py_lt_false, Qle_refl).
  unfold py_min in Hb, Ht. rewrite E in Hb, Ht.
  exists s'. split; [exact Hrun|]. split; [exact Hb|].
  rewrite Ht, saved_app. reflexivity.
Qed.

End EpochEndEdges.

(** ** The other two variants *)

Section OtherVariants.
Context `{TT : Torch}.

(** X6. A returning batch of the supervised variant has run the model
    once, on cat(input); under [args.sparse] the finest level of the
    output is replaced by its interpolation to the target's size; the
    tensor handed to backward is multiscaleEPE of that output against
    the target, and the EPE meter gets div_flow * realEPE of the
    (replaced) finest level. *)
Theorem supervised_batch_loss args optim epoch size i input target ms s r s' :
  supervised_batch args optim epoch size i (input, target) ms s = (Ok r, s') ->
  exists output o0,
    let raw := forward_train (weights s) (cat input) in
    let loss := multiscaleEPE output target (multiscale_weights args) (sparse args) in
    (if sparse args
     then exists h, index raw 0 = Ok h /\ output = interpolate h target :: tl raw
     else output = raw) /\
    index output 0 = Ok o0 /\
    forwards (trace s') = forwards (trace s) ++ [cat input] /\
    backwards (trace s') = backwards (trace s) ++ [loss] /\
    r = (meter_update (fst ms) (item loss) (size0 target),
         meter_update (snd ms)
           (item (tmul (realEPE o0 target (sparse args)) (div_flow args)))
           (size0 target)) /\
    weights s' = snd (opt_step optim (opt s) (weights s) (gacc gzero (weights s) loss)).
Proof.
  revert r s'.
  change (wp (supervised_batch args optim epoch size i (input, target) ms) s
            (fun r s' => exists output o0,
               let raw := forward_train (weights s) (cat input) in
               let loss := multiscaleEPE output target (multiscale_weights args)
                             (sparse args) in
               (if sparse args
                then exists h, index raw 0 = Ok h /\
                               output = interpolate h target :: tl raw
                else output = raw) /\
               index output 0 = Ok o0 /\
               forwards (trace s') = forwards (trace s) ++ [cat input] /\
               backwards (trace s') = backwards (trace s) ++ [loss] /\
               r = (meter_update (fst ms) (item loss) (size0 target),
                    meter_update (snd ms)
                      (item (tmul (realEPE o0 target (sparse args)) (div_flow args)))
                      (size0 target)) /\
               weights s' = snd (opt_step optim (opt s) (weights s)
                                   (gacc gzero (weights s) loss)))).
  unfold supervised_batch, model_pyramid, add_scalar_item, zero_grad, backward,
    optimizer_step, progress, incr_n_iter, set_n_iter, emit.
  wp_run;
    cbn [py_item py_tensor obind] in *;
    repeat match goal with H : Ok _ = Ok _ |- _ => injection H as <- end;
    eexists _, _;
    (split; [first [reflexivity | eexists; split; [eassumption | reflexivity]]|]);
    (split; [eassumption|]);
    rewrite ?forwards_app, ?backwards_app;
    cbn [forwards backwards flat_map app]; rewrite ?app_nil_r;
    repeat split.
Qed.

(** X5. A returning batch of the single-direction self-supervised
    variant has run the model once, on cat(input); the tensor handed
    to backward is pl_loss + sl_loss, the photometric term and the
    (weighted or plain) smoothness term each accumulated over the
    pyramid, and the EPE meter gets div_flow * realEPE of pred[0]. *)
Theorem selfsup_batch_loss args cfg optim epoch size it input target ms s r s' :
  selfsup_batch args cfg optim epoch size it (input, target) ms s = (Ok r, s') ->
  exists im1 im2 pl_loss sl_loss pl_list sl_list loss flow,
    let pred := forward_train (weights s) (cat input) in
    index input 0 = Ok im1 /\ index input 1 = Ok im2 /\
    pl_levels args cfg im1 im2 pred = Ok (pl_loss, pl_list) /\
    single_sl_levels args cfg im1 im2 pred = Ok (sl_loss, sl_list) /\
    py_add pl_loss sl_loss = PTens loss /\
    index pred 0 = Ok flow /\
    forwards (trace s') = forwards (trace s) ++ [cat input] /\
    backwards (trace s') = backwards (trace s) ++ [loss] /\
    r = (meter_update (fst ms) (item loss) (size0 target),
         meter_update (snd ms)
           (item (tmul (realEPE flow target (sparse args)) (div_flow args)))
           (size0 target)) /\
    weights s' = snd (opt_step optim (opt s) (weights s) (gacc gzero (weights s) loss)).
Proof.
  revert r s'.
  change (wp (selfsup_batch args cfg optim epoch size it (input, target) ms) s
            (fun r s' => exists im1 im2 pl_loss sl_loss pl_list sl_list loss flow,
               let pred := forward_train (weights s) (cat input) in
               index input 0 = Ok im1 /\ index input 1 = Ok im2 /\
               pl_levels args cfg im1 im2 pred = Ok (pl_loss, pl_list) /\
               single_sl_levels args cfg im1 im2 pred = Ok (sl_loss, sl_list) /\
               py_add pl_loss sl_loss = PTens loss /\
               index pred 0 = Ok flow /\
               forwards (trace s') = forwards (trace s) ++ [cat input] /\
               backwards (trace s') = backwards (trace s) ++ [loss] /\
               r = (meter_update (fst ms) (item loss) (size0 target),
                    meter_update (snd ms)
                      (item (tmul (realEPE flow target (sparse args)) (div_flow args)))
                      (size0 target)) /\
               weights s' = snd (opt_step optim (opt s) (weights s)
                                   (gacc gzero (weights s) loss)))).
  unfold selfsup_batch, model_pyramid, add_scalar_item, zero_grad, backward,
    optimizer_step, progress, incr_n_iter, set_n_iter, emit.
  wp_run;
    repeat match goal with p : (pyval * list Q)%type |- _ => destruct p end;
    cbn [fst snd] in *;
    match goal with
    | H : py_tensor ?v = Ok _ |- _ => destruct v eqn:Ev; try discriminate
    end;
    cbn [py_item py_tensor obind] in *;
    repeat match goal with H : Ok _ = Ok _ |- _ => injection H as <- end;
    do 8 eexists; cbn zeta;
    (split; [eassumption|]); (split; [eassumption|]);
    (split; [eassumption|]); (split; [eassumption|]);
    (split; [eassumption|]); (split; [eassumption|]);
    rewrite ?forwards_app, ?backwards_app;
    cbn [forwards backwards flat_map app]; rewrite ?app_nil_r;
    repeat split.
Qed.

End OtherVariants.

(** ** A returning pass of [validate] *)

Section ValidatePasses.
Context `{TT : Torch}.

Lemma images_app (t u : list event) : images (t ++ u) = images t ++ images u.
Proof. apply flat_map_app. Qed.

Lemma validate_loop_passes args epoch nw nb bs :
  forall i m s,
    wp (validate_loop args epoch nw nb i bs m) s
       (fun _ s' =>
          forwards (trace s') = forwards (trace s) ++ map (fun b => cat (fst b)) bs /\
          images (trace s') =
            images (trace s) ++
            flat_map (fun p =>
                        if fst p <? nw
                        then (if epoch =? 0
                              then [(fst p, "GroundTruth"%string);
                                    (fst p, "Inputs"%string);
                                    (fst p, "Inputs"%string)]
                              else []) ++ [(fst p, "FlowNet Outputs"%string)]
                        else [])
                     (enumerate i bs)).
Proof.
  induction bs as [|[input target] bs IH]; intros i m s;
    cbn [validate_loop enumerate map flat_map fst].
  - apply wp_ret. now rewrite !app_nil_r.
  - apply wp_bind.
    apply wp_conseq with
      (post := fun _ s1 =>
         forwards (trace s1) = forwards (trace s) ++ [cat input] /\
         images (trace s1) =
           images (trace s) ++
           (if i <? nw
            then (if epoch =? 0
                  then [(i, "GroundTruth"%string); (i, "Inputs"%string);
                        (i, "Inputs"%string)]
                  else []) ++ [(i, "FlowNet Outputs"%string)]
            else [])).
    + unfold validate_batch, model_flow, log_images, emit.
      wp_run;
        rewrite ?forwards_app, ?images_app;
        cbn [forwards images flat_map app]; rewrite ?app_nil_r, <- ?app_assoc;
        split; reflexivity.
    + intros m' s1 [Hf Hi]. cbn beta.
      eapply wp_conseq; [apply IH|]. intros m'' s2 [Hf2 Hi2]. cbn beta in *.
      rewrite Hf2, Hf, Hi2, Hi, <- !app_assoc. split; reflexivity.
Qed.

(** X9. A pass of [validate] that returns has run the model exactly
    once per batch of the loader, in order, on cat(input); it has
    handed images to the output writers only for batches whose index
    is below the number of writers: GroundTruth and the two Inputs at
    epoch 0 only, FlowNet Outputs at every epoch. *)
Theorem validate_passes args val_loader epoch n_writers s r s' :
  validate args val_loader epoch n_writers s = (Ok r, s') ->
  forwards (trace s') =
    forwards (trace s) ++ map (fun b => cat (fst b)) val_loader /\
  images (trace s') =
    images (trace s) ++
    flat_map (fun p =>
                if fst p <? n_writers
                then (if epoch =? 0
                      then [(fst p, "GroundTruth"%string);
                            (fst p, "Inputs"%string);
                            (fst p, "Inputs"%string)]
                      else []) ++ [(fst p, "FlowNet Outputs"%string)]
                else [])
             (enumerate 0 val_loader).
Proof.
  revert r s'.
  change (wp (validate args val_loader epoch n_writers) s
            (fun _ s' =>
               forwards (trace s') =
                 forwards (trace s) ++ map (fun b => cat (fst b)) val_loader /\
               images (trace s') =
                 images (trace s) ++
                 flat_map (fun p =>
                             if fst p <? n_writers
                             then (if epoch =? 0
                                   then [(fst p, "GroundTruth"%string);
                                         (fst p, "Inputs"%string);
                                         (fst p, "Inputs"%string)]
                                   else []) ++ [(fst p, "FlowNet Outputs"%string)]
                             else [])
                          (enumerate 0 val_loader))).
  unfold validate, set_training, emit.
  apply wp_bind, wp_modify. apply wp_bind.
  eapply wp_conseq; [apply validate_loop_passes|].
  intros m s1 [Hf Hi]. cbn beta.
  cbn [n_iter best_EPE grad_enabled training weights grad opt trace] in *.
  wp_run. rewrite forwards_app, images_app, Hf, Hi.
  cbn [forwards images flat_map app]. now rewrite !app_nil_r.
Qed.

End ValidatePasses.

(** ** The two modes of [main] *)

Section MainModes.
Context `{TT : Torch}.

(** X10. In the evaluate-only mode, however [main] ends, it has taken
    no backward pass and no optimizer step, saved no checkpoint and
    set up no scheduler: after the construction of the optimizer the
    log holds only what [validate] logs, under the gradient mode the
    run started with; [n_iter], the parameters, the gradients and the
    optimizer state are as before, and a run that returns returns
    nothing ([None]). *)
Theorem evaluate_only_never_trains args cfg train_loader val_loader s :
  evaluate args = true ->
  let run := main args cfg train_loader val_loader s in
  n_iter (snd run) = n_iter s /\ weights (snd run) = weights s /\
  grad (snd run) = grad s /\ opt (snd run) = opt s /\
  (exists evs,
      trace (snd run) = trace s ++ evs /\
      Forall (fun e => validate_event (grad_enabled s) e \/
                       exists o, e = EvOptimizer o) evs) /\
  (forall r, fst run = Ok r -> r = None).
Proof.
  intros Hev. cbn zeta. unfold main. cbn zeta.
  set (a1 := if contains "KITTI" (dataset args) then set_sparse args true else args).
  set (a2 := match pretrained a1 with Some a => set_arch a1 a | None => a1 end).
  assert (E : evaluate a2 = true).
  { subst a2 a1. destruct (contains _ _); cbn [pretrained set_sparse];
      destruct (pretrained args); exact Hev. }
  rewrite E. clearbody a2. clear a1 E.
  set (optim := if (solver a2 =? "adam")%string then Adam else SGD).
  destruct (known_solver (solver a2)).
  - unfold bind, emit, set_best_EPE, modify, ret.
    cbn [fst snd n_iter best_EPE grad_enabled training weights grad opt trace].
    set (s1 := {| n_iter := n_iter s; best_EPE := best_EPE s;
                  grad_enabled := grad_enabled s; training := training s;
                  weights := weights s; grad := grad s; opt := opt s;
                  trace := trace s ++ [EvOptimizer optim] |}).
    pose proof (@validate_triple _ a2 val_loader 0 3 (grad_enabled s)) as Ht.
    unfold triple in Ht.
    destruct (Ht s1 eq_refl) as (_ & evs & Hevs & HE).
    destruct (validate_frame a2 val_loader 0 3 s1)
      as (Hn & _ & _ & Hw & Hd & Ho & _).
    destruct (validate a2 val_loader 0 3 s1) as [[e|x] s2];
      cbn [fst snd n_iter best_EPE grad_enabled training weights grad opt trace] in *;
      (repeat (split; [assumption|]));
      (split; [|intros r [=]; congruence]);
      exists (EvOptimizer optim :: evs);
      (split; [rewrite Hevs; unfold s1; cbn [trace]; now rewrite <- app_assoc|]);
      (constructor; [right; now exists optim|]);
      (eapply Forall_impl; [|exact HE]; intros; now left).
  - unfold bind, raise. cbn [fst snd].
    repeat (split; [reflexivity|]).
    split; [|intros r [=]].
    exists []. split; [now rewrite app_nil_r | constructor].
Qed.

Lemma scheduler_steps_app (t u : list event) :
  scheduler_steps (t ++ u) = scheduler_steps t + scheduler_steps u.
Proof. unfold scheduler_steps. rewrite filter_app, length_app. lia. Qed.

Lemma train_events_quiet g evs :
  Forall (train_event g) evs -> saved evs = [] /\ scheduler_steps evs = 0.
Proof.
  induction 1 as [|e evs He _ [IH1 IH2]]; [now split|].
  change (e :: evs) with ([e] ++ evs).
  rewrite saved_app, scheduler_steps_app, IH1, IH2.
  destruct e; cbn in He; try contradiction; now split.
Qed.

Lemma validate_events_quiet g evs :
  Forall (validate_event g) evs -> saved evs = [] /\ scheduler_steps evs = 0.
Proof.
  induction 1 as [|e evs He _ [IH1 IH2]]; [now split|].
  change (e :: evs) with ([e] ++ evs).
  rewrite saved_app, scheduler_steps_app, IH1, IH2.
  destruct e; cbn in He; try contradiction; now split.
Qed.

Lemma epoch_end_saves args k e s :
  wp (epoch_end args k e) s
     (fun _ s' =>
        exists c b,
          trace s' = trace s ++ [EvCheckpoint c b] /\
          ck_epoch c = k + 1 /\ ck_arch c = arch args /\
          ck_div_flow c = div_flow args).
Proof.
  intros u s' Hrun.
  destruct (epoch_end_run args k e s) as (s1 & Hrun1 & _ & _ & Ht).
  rewrite Hrun1 in Hrun. injection Hrun as _ <-.
  eexists _, _. split; [exact Ht|]. repeat split.
Qed.

(** One pass of the epoch loop that returns has handed one record to
    the checkpoint sink and stepped the scheduler once. *)
Lemma run_epoch_saves args cfg train_loader val_loader optim k s :
  wp (run_epoch args cfg train_loader val_loader optim k) s
     (fun _ s' =>
        exists c b,
          saved (trace s') = saved (trace s) ++ [(c, b)] /\
          ck_epoch c = k + 1 /\ ck_arch c = arch args /\
          ck_div_flow c = div_flow args /\
          scheduler_steps (trace s') = scheduler_steps (trace s) + 1).
Proof.
  unfold run_epoch.
  apply wp_bind.
  eapply wp_conseq;
    [eapply triple_wp; [apply train_triple | reflexivity]|].
  intros [train_loss train_EPE] s1 (_ & evs1 & Ht1 & HE1). cbn beta iota.
  apply train_events_quiet in HE1 as [Hs1 Hc1].
  unfold emit. apply wp_bind, wp_modify. apply wp_bind, wp_modify.
  cbn [n_iter best_EPE grad_enabled training weights grad opt trace].
  apply wp_bind.
  eapply wp_conseq.
  { eapply triple_wp;
      [eapply triple_with_no_grad; apply validate_triple | reflexivity]. }
  intros EPE s2 (_ & evs2 & Ht2 & HE2). cbn beta.
  cbn [n_iter best_EPE grad_enabled training weights grad opt trace] in Ht2.
  apply validate_events_quiet in HE2 as [Hs2 Hc2].
  apply wp_bind, wp_modify.
  eapply wp_conseq; [apply epoch_end_saves|].
  intros u s3 (c & b & Ht3 & He & Ha & Hd). cbn beta.
  cbn [n_iter best_EPE grad_enabled training weights grad opt trace] in Ht3.
  exists c, b. rewrite Ht3, Ht2, Ht1.
  rewrite !saved_app, !scheduler_steps_app, Hs1, Hs2, Hc1, Hc2.
  cbn [saved flat_map app]. rewrite !app_nil_r.
  repeat split; try assumption.
  unfold scheduler_steps. cbn. lia.
Qed.

Lemma for_each_saves args cfg train_loader val_loader optim n :
  forall start s,
    wp (for_each (run_epoch args cfg train_loader val_loader optim) (seq start n)) s
       (fun _ s' =>
          exists new,
            saved (trace s') = saved (trace s) ++ new /\
            map (fun p => ck_epoch (fst p)) new =
              map (fun k => Z.of_nat k + 1) (seq start n) /\
            Forall (fun p => ck_arch (fst p) = arch args /\
                             ck_div_flow (fst p) = div_flow args) new /\
            scheduler_steps (trace s') = scheduler_steps (trace s) + Z.of_nat n).
Proof.
  induction n as [|n IH]; intros start s; cbn [seq for_each].
  - apply wp_ret. exists []. rewrite app_nil_r. repeat split; [constructor | cbn; lia].
  - apply wp_bind. eapply wp_conseq; [apply run_epoch_saves|].
    intros u s1 (c & b & Hs1 & He & Ha & Hd & Hc1). cbn beta.
    eapply wp_conseq; [apply IH|].
    intros u' s2 (new & Hs2 & Hm & Hf & Hc2). cbn beta.
    exists ((c, b) :: new). rewrite Hs2, Hs1, <- app_assoc. cbn [app map fst].
    split; [reflexivity|]. split; [now rewrite He, Hm|].
    split; [constructor; [now split | exact Hf]|]. lia.
Qed.

(** X12. A run of [main] that returns and is not evaluate-only has
    handed exactly one record to the checkpoint sink per epoch, with
    epoch numbers 1, 2, ..., int(config["epochs"]), each carrying the
    architecture name (that of the pretrained network if one was
    loaded) and div_flow; it has stepped the scheduler once per epoch
    and returns the final best_EPE.  With a number of epochs of 0 or
    less there is no record and no step. *)
Theorem one_checkpoint_per_epoch args cfg train_loader val_loader s r s' :
  main args cfg train_loader val_loader s = (Ok r, s') ->
  evaluate args = false ->
  r = Some (best_EPE s') /\
  scheduler_steps (trace s') =
    scheduler_steps (trace s) + Z.of_nat (Z.to_nat (epochs cfg)) /\
  exists new,
    saved (trace s') = saved (trace s) ++ new /\
    map (fun p => ck_epoch (fst p)) new =
      map (fun k => Z.of_nat k + 1) (seq 0 (Z.to_nat (epochs cfg))) /\
    Forall (fun p => ck_arch (fst p) = match pretrained args with
                                       | Some a => a
                                       | None => arch args
                                       end /\
                     ck_div_flow (fst p) = div_flow args) new.
Proof.
  intros Hrun Hev. revert r s' Hrun.
  change (wp (main args cfg train_loader val_loader) s
            (fun r s' =>
               r = Some (best_EPE s') /\
               scheduler_steps (trace s') =
                 scheduler_steps (trace s) + Z.of_nat (Z.to_nat (epochs cfg)) /\
               exists new,
                 saved (trace s') = saved (trace s) ++ new /\
                 map (fun p => ck_epoch (fst p)) new =
                   map (fun k => Z.of_nat k + 1) (seq 0 (Z.to_nat (epochs cfg))) /\
                 Forall (fun p => ck_arch (fst p) = match pretrained args with
                                                    | Some a => a
                                                    | None => arch args
                                                    end /\
                                  ck_div_flow (fst p) = div_flow args) new)).
  unfold main. cbn zeta.
  set (a1 := if contains "KITTI" (dataset args) then set_sparse args true else args).
  set (a2 := match pretrained a1 with Some a => set_arch a1 a | None => a1 end).
  assert (E : evaluate a2 = false /\ div_flow a2 = div_flow args /\
              arch a2 = match pretrained args with Some a => a | None => arch args end).
  { subst a2 a1. destruct (contains _ _); cbn [pretrained set_sparse];
      destruct (pretrained args); cbn; auto. }
  destruct E as (E & Ed & Ea). rewrite E. clearbody a2. clear a1 E.
  apply wp_bind. destruct (known_solver (solver a2)); [apply wp_ret | apply wp_raise].
  unfold emit. apply wp_bind, wp_modify. apply wp_bind, wp_modify. apply wp_bind.
  unfold range. eapply wp_conseq; [apply for_each_saves|].
  intros u s1 (new & Hs & Hm & Hf & Hc). cbn beta.
  cbn [n_iter best_EPE grad_enabled training weights grad opt trace] in Hs, Hc.
  wp_run. split; [reflexivity|].
  rewrite !saved_app, !scheduler_steps_app in *.
  cbn [saved flat_map app] in Hs. rewrite !app_nil_r in Hs.
  split.
  - rewrite Hc. unfold scheduler_steps. cbn. lia.
  - exists new. split; [exact Hs|]. split; [exact Hm|].
    eapply Forall_impl; [|exact Hf]. intros p [H1 H2]. split; congruence.
Qed.

End MainModes.

(** ** The epoch loop of [main]: validation EPEs, best value, checkpoints *)

Section BestValue.
Local Open Scope Q_scope.

Lemma best_track_length best es : List.length (best_track best es) = List.length es.
Proof. revert best. induction es as [|e es IH]; intros best; cbn; [reflexivity | now rewrite IH]. Qed.

(** The best values and the flags over the EPEs [es] of successive
    epochs, after the epochs with EPEs [pre]. *)
Lemma best_track_spec : forall es pre best,
  Forall (fun e => 0 <= e) es ->
  (pre = [] /\ best < 0) \/ (pre <> [] /\ is_min best pre /\ 0 <= best) ->
  (forall j bb flag, nth_error (best_track best es) j = Some (bb, flag) ->
     is_min bb (firstn (List.length pre + j + 1) (pre ++ es)) /\
     (flag = true <->
      exists e, nth_error es j = Some e /\ (0 < List.length pre + j)%nat /\
                Forall (fun x => e < x) (firstn (List.length pre + j) (pre ++ es)))) /\
  (es <> [] ->
   is_min (fold_left (fun b e => fst (best_step b e)) es best) (pre ++ es)).
Proof.
  induction es as [|e es IH]; intros pre best Hes Hinv.
  - split; [intros [|j] bb flag; discriminate | congruence].
  - inversion Hes as [|? ? He Hes']; subst.
    destruct (best_update He Hinv) as (Hmin & Hnn & Hflag).
    cbn zeta in Hmin, Hnn, Hflag.
    destruct (IH (pre ++ [e]) (fst (best_step best e)) Hes') as [Hrec Hfin].
    { right. split; [destruct pre; discriminate|]. now split. }
    rewrite length_app in *. cbn [List.length] in *.
    rewrite <- app_assoc in *. cbn [app] in *.
    split.
    + intros [|j] bb flag Hj.
      * cbn [best_track nth_error] in Hj. unfold best_step in Hj.
        injection Hj as <- <-.
        rewrite !Nat.add_0_r, firstn_pre, firstn_pre0.
        split; [exact Hmin|]. split.
        -- intros H. exists e. split; [reflexivity|].
           apply Hflag in H as [Hp Hall]. split; [|exact Hall].
           destruct pre; [congruence | cbn; lia].
        -- intros (e' & [= <-] & Hp & Hall). apply Hflag. split; [|exact Hall].
           destruct pre; [cbn in Hp; lia | discriminate].
      * cbn [best_track nth_error] in Hj. apply Hrec in Hj. cbn [nth_error].
        replace (List.length pre + S j)%nat with (List.length pre + 1 + j)%nat by lia.
        exact Hj.
    + intros _. cbn [fold_left]. destruct es as [|e' es'].
      * cbn [fold_left]. exact Hmin.
      * apply Hfin. discriminate.
Qed.

End BestValue.

Section EpochLoop.
Context `{TT : Torch}.

Lemma wp_and {A} (m : M A) s (P Q : A -> state -> Prop) :
  wp m s P -> wp m s Q -> wp m s (fun a s' => P a s' /\ Q a s').
Proof. intros HP HQ a s' E. split; [now apply HP | now apply HQ]. Qed.

Lemma wp_with_no_grad {A} (m : M A) s (post : A -> state -> Prop) :
  wp m (set_grad_enabled false s)
     (fun a s1 => post a (set_grad_enabled (grad_enabled s) s1)) ->
  wp (with_no_grad m) s post.
Proof.
  intros H a s' E. unfold with_no_grad in E.
  destruct (m (set_grad_enabled false s)) as [r s1] eqn:Em.
  cbn zeta in E. injection E as Er Es. subst r s'. now apply H.
Qed.

Lemma validation_EPEs_app (t u : list event) :
  validation_EPEs (t ++ u) = validation_EPEs t ++ validation_EPEs u.
Proof. apply flat_map_app. Qed.

Lemma unvalidated (evs : list event) :
  Forall (fun e => validation_EPEs [e] = []) evs -> validation_EPEs evs = [].
Proof.
  induction 1 as [|e evs He _ IH]; [reflexivity|].
  change (e :: evs) with ([e] ++ evs). now rewrite validation_EPEs_app, He, IH.
Qed.

Lemma train_events_unvalidated g evs :
  Forall (train_event g) evs -> validation_EPEs evs = [].
Proof.
  intros H. apply unvalidated. eapply Forall_impl; [|exact H].
  intros e He. destruct e; cbn in He; try contradiction; reflexivity.
Qed.

(** [train] leaves [best_EPE] alone, however it ends. *)
Lemma train_body_best args cfg optim epoch size (b0 : Q) it b ms :
  triple (fun s => best_EPE s = b0) (train_body args cfg optim epoch size it b ms)
         (fun s => best_EPE s = b0) (fun _ => True).
Proof.
  destruct b as [input target].
  unfold train_body, supervised_batch, unflow_batch, selfsup_batch, predict_both,
    model_pyramid, logged_term, add_scalar_item, zero_grad, backward,
    optimizer_step, progress, incr_n_iter, set_n_iter, emit.
  destruct (train_variant args); repeat keeps_step.
Qed.

Lemma train_best args cfg train_loader optim epoch (b0 : Q) :
  triple (fun s => best_EPE s = b0) (train args cfg train_loader optim epoch)
         (fun s => best_EPE s = b0) (fun _ => True).
Proof.
  unfold train, set_training.
  apply keeps_bind; [keeps_modify|]. intros _.
  apply keeps_bind; [|intros; apply triple_ret].
  apply batch_loop_keeps. intros. apply train_body_best.
Qed.

(** The loop of [validate] reports no mean EPE; [validate] reports the
    one it returns. *)
Lemma validate_loop_unvalidated args epoch nw nb g bs :
  forall i m,
    triple (in_mode false g) (validate_loop args epoch nw nb i bs m)
           (in_mode false g) (fun e => validation_EPEs [e] = []).
Proof.
  induction bs as [|[input target] bs IH]; intros i m; cbn [validate_loop].
  - apply triple_ret.
  - apply keeps_bind; [|intros; apply IH].
    unfold validate_batch, log_images, emit. repeat keeps_step.
Qed.

Lemma validate_reports args val_loader epoch nw s :
  wp (validate args val_loader epoch nw) s
     (fun e s' => validation_EPEs (trace s') = validation_EPEs (trace s) ++ [e]).
Proof.
  unfold validate, set_training. apply wp_bind, wp_modify. apply wp_bind.
  eapply wp_conseq.
  { eapply triple_wp;
      [apply validate_loop_unvalidated with (g := grad_enabled s)
      | split; reflexivity]. }
  intros m s1 (_ & evs & Ht & HE). cbn beta.
  cbn [n_iter best_EPE grad_enabled training weights grad opt trace] in Ht.
  unfold emit. apply wp_bind, wp_modify. apply wp_ret.
  cbn [n_iter best_EPE grad_enabled training weights grad opt trace].
  rewrite Ht, !validation_EPEs_app, (unvalidated HE). cbn.
  now rewrite app_nil_r.
Qed.

Lemma validate_no_grad_reports args val_loader epoch nw s :
  wp (with_no_grad (validate args val_loader epoch nw)) s
     (fun e s' => validation_EPEs (trace s') = validation_EPEs (trace s) ++ [e]).
Proof.
  apply wp_with_no_grad. eapply wp_conseq; [apply validate_reports|].
  intros e s1 H. exact H.
Qed.

(** One pass of the epoch loop that returns: the EPE that [validate]
    reported decides the best value and the flag of the one record
    that goes to the checkpoint sink, with the parameters as they are
    after the epoch's training. *)
Lemma run_epoch_track args cfg train_loader val_loader optim k s :
  wp (run_epoch args cfg train_loader val_loader optim k) s
     (fun _ s' =>
        exists e c b,
          validation_EPEs (trace s') = validation_EPEs (trace s) ++ [e] /\
          saved (trace s') = saved (trace s) ++ [(c, b)] /\
          (ck_best_EPE c, b) = best_step (best_EPE s) e /\
          best_EPE s' = ck_best_EPE c /\
          ck_state_dict c = weights s').
Proof.
  unfold run_epoch.
  apply wp_bind.
  eapply wp_conseq.
  { apply wp_and;
      [eapply triple_wp; [apply train_triple | reflexivity]
      |eapply triple_wp; [apply train_best | reflexivity]]. }
  intros [train_loss train_EPE] s1 [(_ & evs1 & Ht1 & HE1) (Hb1 & _)].
  cbn beta iota.
  pose proof (train_events_unvalidated HE1) as Hv1.
  apply train_events_quiet in HE1 as [Hs1 _].
  unfold emit. apply wp_bind, wp_modify. apply wp_bind, wp_modify.
  cbn [n_iter best_EPE grad_enabled training weights grad opt trace].
  apply wp_bind.
  eapply wp_conseq.
  { apply wp_and; [apply wp_and|].
    - eapply triple_wp;
        [eapply triple_with_no_grad; apply validate_triple | reflexivity].
    - apply frame_wp, frame_with_no_grad, validate_frame.
    - apply validate_no_grad_reports. }
  intros EPE s2 [[(_ & evs2 & Ht2 & HE2) Hu] Hv2]. cbn beta.
  destruct Hu as (_ & Hb2 & _ & Hw2 & _).
  cbn [n_iter best_EPE grad_enabled training weights grad opt trace] in Ht2, Hb2, Hw2, Hv2.
  apply validate_events_quiet in HE2 as [Hs2 _].
  apply wp_bind, wp_modify.
  intros u s3 Hrun.
  match type of Hrun with
  | epoch_end _ _ _ ?st = _ =>
      destruct (epoch_end_run args k EPE st) as (s3' & Hr & Hb3 & Hw3 & Ht3)
  end.
  rewrite Hr in Hrun. injection Hrun as Hs3. subst s3.
  cbn [n_iter best_EPE grad_enabled training weights grad opt trace] in Hb3, Hw3, Ht3.
  rewrite Ht2, !validation_EPEs_app in Hv2.
  cbn [validation_EPEs flat_map app] in Hv2. rewrite !app_nil_r in Hv2.
  apply app_inv_head in Hv2.
  eexists EPE, _, _.
  rewrite Ht3, Ht2, Ht1.
  rewrite !saved_app, !validation_EPEs_app, Hs1, Hs2, Hv1, Hv2.
  cbn [saved validation_EPEs flat_map app]. rewrite !app_nil_r.
  split; [reflexivity|]. split; [reflexivity|].
  cbn [ck_best_EPE ck_state_dict]. unfold best_step.
  rewrite Hb3, Hb2, Hb1, Hw3, Hw2. repeat split.
Qed.

Lemma for_each_track args cfg train_loader val_loader optim n :
  forall start s,
    wp (for_each (run_epoch args cfg train_loader val_loader optim) (seq start n)) s
       (fun _ s' =>
          exists epes new,
            validation_EPEs (trace s') = validation_EPEs (trace s) ++ epes /\
            saved (trace s') = saved (trace s) ++ new /\
            List.length epes = n /\
            map (fun p => (ck_best_EPE (fst p), snd p)) new =
              best_track (best_EPE s) epes /\
            best_EPE s' =
              fold_left (fun b e => fst (best_step b e)) epes (best_EPE s) /\
            (forall c b, nth_error new (pred n) = Some (c, b) ->
               ck_state_dict c = weights s' /\ ck_best_EPE c = best_EPE s') /\
            (n = 0%nat -> weights s' = weights s)).
Proof.
  induction n as [|n IH]; intros start s; cbn [seq for_each].
  - apply wp_ret. exists [], []. rewrite !app_nil_r.
    repeat (split; [reflexivity|]). split; [|reflexivity].
    intros c b H. discriminate.
  - apply wp_bind. eapply wp_conseq; [apply run_epoch_track|].
    intros u s1 (e & c & b & Hv1 & Hs1 & Hstep & Hb1 & Hw1). cbn beta.
    eapply wp_conseq; [apply IH|].
    intros u' s2 (epes & new & Hv2 & Hs2 & Hlen & Hmap & Hb2 & Hlast & Hnil).
    cbn beta.
    assert (Hfst : fst (best_step (best_EPE s) e) = best_EPE s1).
    { rewrite <- Hstep. cbn [fst]. now rewrite Hb1. }
    exists (e :: epes), ((c, b) :: new).
    split; [now rewrite Hv2, Hv1, <- app_assoc|].
    split; [now rewrite Hs2, Hs1, <- app_assoc|].
    split; [cbn; now rewrite Hlen|].
    split; [cbn [map best_track fst snd]; now rewrite Hstep, Hfst, Hmap|].
    split; [cbn [fold_left]; now rewrite Hfst|].
    split; [|discriminate].
    intros c' b' H. cbn [pred] in H. destruct n as [|n'].
    + cbn in H. injection H as <- <-.
      destruct epes; [|discriminate]. cbn [fold_left] in Hb2.
      rewrite Hnil by reflexivity. split; [exact Hw1 | congruence].
    + cbn [nth_error] in H. exact (Hlast _ _ H).
Qed.

(** C3 (amended). A run of [main] that returns and is not evaluate-only
    has handed a record {epoch, arch, state_dict, best_EPE, div_flow}
    to the checkpoint sink after every epoch, whether or not the
    epoch's validation EPE improved; the last record holds the final
    parameters and the final best_EPE.  When best_EPE is negative at
    the start (as at load) and the validation EPEs are non-negative,
    the best_EPE in the record of epoch k is the minimum validation
    EPE over epochs 0..k, the final best_EPE is the minimum over all
    epochs, and the is_best flag of a record is set exactly when its
    epoch is not the first and its EPE is strictly below the EPE of
    every earlier epoch. *)
Theorem checkpoint_every_epoch_best_on_improvement
    args cfg train_loader val_loader s r s' :
  main args cfg train_loader val_loader s = (Ok r, s') ->
  evaluate args = false ->
  exists epes new,
    validation_EPEs (trace s') = validation_EPEs (trace s) ++ epes /\
    saved (trace s') = saved (trace s) ++ new /\
    List.length epes = Z.to_nat (epochs cfg) /\
    List.length new = Z.to_nat (epochs cfg) /\
    map (fun p => ck_epoch (fst p)) new =
      map (fun k => Z.of_nat k + 1) (seq 0 (Z.to_nat (epochs cfg))) /\
    (forall c b, nth_error new (pred (List.length new)) = Some (c, b) ->
       ck_state_dict c = weights s' /\ ck_best_EPE c = best_EPE s') /\
    ((best_EPE s < 0)%Q -> Forall (fun e => (0 <= e)%Q) epes ->
     (forall k c b, nth_error new k = Some (c, b) ->
        is_min (ck_best_EPE c) (firstn (S k) epes) /\
        (b = true <->
         exists e, nth_error epes k = Some e /\ (0 < k)%nat /\
                   Forall (fun x => (e < x)%Q) (firstn k epes))) /\
     (epes <> [] -> is_min (best_EPE s') epes)).
Proof.
  intros Hrun Hev. revert r s' Hrun.
  change (wp (main args cfg train_loader val_loader) s
            (fun r s' =>
               exists epes new,
                 validation_EPEs (trace s') = validation_EPEs (trace s) ++ epes /\
                 saved (trace s') = saved (trace s) ++ new /\
                 List.length epes = Z.to_nat (epochs cfg) /\
                 List.length new = Z.to_nat (epochs cfg) /\
                 map (fun p => ck_epoch (fst p)) new =
                   map (fun k => Z.of_nat k + 1) (seq 0 (Z.to_nat (epochs cfg))) /\
                 (forall c b, nth_error new (pred (List.length new)) = Some (c, b) ->
                    ck_state_dict c = weights s' /\ ck_best_EPE c = best_EPE s') /\
                 ((best_EPE s < 0)%Q -> Forall (fun e => (0 <= e)%Q) epes ->
                  (forall k c b, nth_error new k = Some (c, b) ->
                     is_min (ck_best_EPE c) (firstn (S k) epes) /\
                     (b = true <->
                      exists e, nth_error epes k = Some e /\ (0 < k)%nat /\
                                Forall (fun x => (e < x)%Q) (firstn k epes))) /\
                  (epes <> [] -> is_min (best_EPE s') epes)))).
  unfold main. cbn zeta.
  set (a1 := if contains "KITTI" (dataset args) then set_sparse args true else args).
  set (a2 := match pretrained a1 with Some a => set_arch a1 a | None => a1 end).
  assert (E : evaluate a2 = false).
  { subst a2 a1. destruct (contains _ _); cbn [pretrained set_sparse];
      destruct (pretrained args); cbn; auto. }
  rewrite E. clearbody a2. clear a1 E.
  apply wp_bind. destruct (known_solver (solver a2)); [apply wp_ret | apply wp_raise].
  unfold emit. apply wp_bind, wp_modify. apply wp_bind, wp_modify. apply wp_bind.
  unfold range. eapply wp_conseq.
  { apply wp_and; [apply for_each_track | apply for_each_saves]. }
  intros u s1 [(epes & new & Hv & Hs & Hlen & Hmap & Hb & Hlast & _)
                 (new' & Hs' & Hep & _)].
  cbn beta.
  cbn [n_iter best_EPE grad_enabled training weights grad opt trace] in *.
  wp_run.
  rewrite !saved_app, !validation_EPEs_app in *.
  cbn [saved validation_EPEs flat_map app] in *. rewrite !app_nil_r in *.
  assert (new' = new) as -> by (rewrite Hs in Hs'; now apply app_inv_head in Hs').
  assert (Hlen' : List.length new = Z.to_nat (epochs cfg)).
  { rewrite <- Hlen, <- (best_track_length (best_EPE s) epes), <- Hmap.
    now rewrite length_map. }
  exists epes, new.
  split; [exact Hv|]. split; [exact Hs|]. split; [exact Hlen|].
  split; [exact Hlen'|]. split; [exact Hep|].
  split; [rewrite Hlen'; exact Hlast|].
  intros Hneg Hnn.
  destruct (@best_track_spec epes [] (best_EPE s) Hnn) as [Hrec Hfin].
  { left. now split. }
  cbn [List.length app Nat.add] in Hrec, Hfin.
  split.
  - intros k c b Hk.
    assert (Hk' : nth_error (best_track (best_EPE s) epes) k = Some (ck_best_EPE c, b)).
    { rewrite <- Hmap. now rewrite nth_error_map, Hk. }
    apply Hrec in Hk'. now rewrite Nat.add_1_r in Hk'.
  - intros Hne. rewrite Hb. now apply Hfin.
Qed.

End EpochLoop.

(** ** Pyramids of different depth *)

Section MoreEdges.
Context `{TT : Torch}.

Lemma over_levels_raise (term : nat -> outcome tensor) idx ls i rest e :
  Forall2 (fun i l => term i = Ok l) idx ls ->
  term i = Raise e ->
  forall acc lst, over_levels term true (idx ++ i :: rest) acc lst = Raise e.
Proof.
  intros Hok Hi. induction Hok as [|j l idx ls Hj _ IH]; intros acc lst; cbn.
  - now rewrite Hi.
  - rewrite Hj. cbn. apply IH.
Qed.

Lemma range_split (a d : nat) : range (a + S d) = seq 0 a ++ a :: seq (S a) d.
Proof. unfold range. now rewrite seq_app. Qed.

Lemma scaled_out args (pred : list tensor) i :
  (List.length pred <= i)%nat -> scaled args pred i = Raise IndexError.
Proof.
  intros H. unfold scaled, index.
  now rewrite (proj2 (nth_error_None pred i) H).
Qed.

Lemma scaled_in args (pred : list tensor) i :
  (i < List.length pred)%nat -> exists f, scaled args pred i = Ok f.
Proof.
  intros H. unfold scaled, index.
  destruct (nth_error pred i) eqn:E.
  - cbn [obind]. eauto.
  - apply (proj1 (nth_error_None pred i)) in E. lia.
Qed.

(** X15. When the two pyramids of the unflow variant differ in depth,
    a multiscale term that walks the longer one runs off the end of
    the shorter: the census and smoothness loops (over the levels of
    pred_fw) raise [IndexError] if pred_bw is shallower, the
    forward-backward loop (over the levels of pred_bw) if pred_fw is. *)
Theorem unequal_pyramids_raise args cfg im1 im2 (pred_fw pred_bw : list tensor) :
  (multiscale_census_loss cfg = true ->
   (List.length pred_bw < List.length pred_fw)%nat ->
   census_levels args cfg im1 im2 pred_fw pred_bw = Raise IndexError) /\
  (multiscale_sl_loss cfg = true ->
   (List.length pred_bw < List.length pred_fw)%nat ->
   sl_levels args cfg pred_fw pred_bw = Raise IndexError) /\
  (multiscale_fb_loss cfg = true ->
   (List.length pred_fw < List.length pred_bw)%nat ->
   fb_levels args cfg im1 im2 pred_fw pred_bw = Raise IndexError).
Proof.
  unfold census_levels, sl_levels, fb_levels.
  split; [|split]; intros -> Hlt.
  - replace (List.length pred_fw)
      with (List.length pred_bw + S (List.length pred_fw - S (List.length pred_bw)))%nat
      by lia.
    rewrite range_split.
    apply over_levels_raise
      with (ls := map (census_at args im1 im2) (combine pred_fw pred_bw)).
    + replace (List.length pred_bw)
        with (List.length (map (census_at args im1 im2) (combine pred_fw pred_bw)))
        by (rewrite length_map, length_combine; lia).
      apply terms_on_seq. intros i l H. unfold census_term.
      exact (paired_terms args (fun a b => tadd (ternary_loss im2 im1 a 1)
                                               (ternary_loss im1 im2 b 1)) _ _ _ H).
    + unfold census_term.
      destruct (scaled_in args pred_fw Hlt) as [f ->]. cbn [obind].
      now rewrite scaled_out.
  - replace (List.length pred_fw)
      with (List.length pred_bw + S (List.length pred_fw - S (List.length pred_bw)))%nat
      by lia.
    rewrite range_split.
    apply over_levels_raise
      with (ls := map (sl_at args cfg) (combine pred_fw pred_bw)).
    + replace (List.length pred_bw)
        with (List.length (map (sl_at args cfg) (combine pred_fw pred_bw)))
        by (rewrite length_map, length_combine; lia).
      apply terms_on_seq. intros i l H. unfold sl_term.
      exact (paired_terms args (fun a b => tadd (smoothness_loss a cfg)
                                               (smoothness_loss b cfg)) _ _ _ H).
    + unfold sl_term.
      destruct (scaled_in args pred_fw Hlt) as [f ->]. cbn [obind].
      now rewrite scaled_out.
  - replace (List.length pred_bw)
      with (List.length pred_fw + S (List.length pred_bw - S (List.length pred_fw)))%nat
      by lia.
    rewrite range_split.
    apply over_levels_raise
      with (ls := map (fb_at args cfg im1 im2) (combine pred_fw pred_bw)).
    + replace (List.length pred_fw)
        with (List.length (map (fb_at args cfg im1 im2) (combine pred_fw pred_bw)))
        by (rewrite length_map, length_combine; lia).
      apply terms_on_seq. intros i l H. unfold fb_term.
      exact (paired_terms args (fun a b => forward_backward_loss im1 im2 a b cfg)
               _ _ _ H).
    + unfold fb_term. now rewrite scaled_out.
Qed.

End MoreEdges.

(** ** The properties above on the toy backend *)

Lemma train_batch_count_witness :
  exists r s',
    train (TT := torch) (with_epoch_size args0 2) get_default_config
      five_batches Adam 0 s0 = (Ok r, s') /\
    n_iter s' = n_iter s0 + 3 /\ steps (trace s') = steps (trace s0) + 3.
Proof.
  assert (H := returned (0%Q, 0%Q) train_run I).
  eexists _, _. split; [exact H|].
  exact (train_batch_count _ _ _ _ _ _ H).
Defined.

Lemma print_freq_zero_never_returns_witness :
  print_freq (with_print_freq args0 0) = 0 /\
  (forall r s',
      train (TT := torch) (with_print_freq args0 0) get_default_config
        (batch_of 1 2 3 :: [batch_of 2 3 4]) Adam 0 s0 <> (Ok r, s')) /\
  (forall r s',
      validate (TT := torch) (with_print_freq args0 0)
        (batch_of 1 2 3 :: [batch_of 2 3 4]) 0 1 s0 <> (Ok r, s')).
Proof.
  assert (H : print_freq (with_print_freq args0 0) = 0) by reflexivity.
  split; [exact H|].
  exact (print_freq_zero_never_returns (TT := torch) (with_print_freq args0 0)
           get_default_config Adam 0 1 (batch_of 1 2 3) [batch_of 2 3 4] s0 H).
Defined.

Lemma all_terms_off_raises_witness :
  let cfg := without_terms get_default_config in
  (census cfg = false /\ sl cfg = false /\ ssim cfg = false /\ fb cfg = false) /\
  fst (unflow_batch (TT := torch) args0 cfg Adam 0 5 0 ([[1]; [2]], [3])
         no_meters s0) = Raise AttributeError.
Proof.
  cbn zeta. split; [repeat split|].
  exact (proj1 (all_terms_off_raises (TT := torch) args0
                  (without_terms get_default_config) Adam 0 5 0 [1] [2] [] [3]
                  no_meters s0 eq_refl eq_refl eq_refl eq_refl)).
Defined.

Lemma short_input_raises_witness :
  (List.length ([[1%Z]] : list (list Z)) < 2)%nat /\
  unflow_batch (TT := torch) args0 get_default_config Adam 0 5 0
    ([[1]], [3]) no_meters s0 = (Raise IndexError, s0) /\
  selfsup_batch (TT := torch) args0 get_default_config Adam 0 5 0
    ([[1]], [3]) no_meters s0 = (Raise IndexError, s0).
Proof.
  assert (H : (List.length ([[1%Z]] : list (list Z)) < 2)%nat) by exact (le_n 2).
  split; [exact H|].
  exact (short_input_raises (TT := torch) args0 get_default_config Adam 0 5 0
           [[1]] [3] no_meters s0 H).
Defined.

Lemma negative_best_is_overwritten_witness :
  (best_EPE s0 < 0)%Q /\
  exists s', epoch_end (TT := torch) args0 0 7 s0 = (Ok tt, s') /\
             best_EPE s' = 7%Q.
Proof.
  assert (H : (best_EPE s0 < 0)%Q) by reflexivity.
  split; [exact H|].
  destruct (negative_best_is_overwritten args0 0 7 s0 H) as (s' & Hr & Hb & _).
  exists s'. split; [exact Hr | exact Hb].
Defined.

Lemma supervised_batch_loss_witness :
  exists r s',
    supervised_batch (TT := torch) (with_variant args0 false true) Adam 0 5 0
      ([[1]; [2]], [3]) no_meters s0 = (Ok r, s') /\
    forwards (trace s') = forwards (trace s0) ++ [cat [[1]; [2]]].
Proof.
  assert (H := returned no_meters supervised_run I).
  eexists _, _. split; [exact H|].
  destruct (supervised_batch_loss _ _ _ _ _ _ _ _ _ H) as (output & o0 & K).
  cbn zeta in K. apply K.
Defined.

Lemma selfsup_batch_loss_witness :
  exists r s',
    selfsup_batch (TT := torch) (with_variant args0 true false)
      get_default_config Adam 0 5 0 ([[1]; [2]], [3]) no_meters s0 = (Ok r, s') /\
    forwards (trace s') = forwards (trace s0) ++ [cat [[1]; [2]]].
Proof.
  assert (H := returned no_meters selfsup_run I).
  eexists _, _. split; [exact H|].
  destruct (selfsup_batch_loss _ _ _ _ _ _ _ _ _ _ H)
    as (im1 & im2 & pl & sl & pls & sls & loss & flow & K).
  cbn zeta in K. apply K.
Defined.

Lemma validate_passes_witness :
  exists r s',
    validate (TT := torch) args0 [batch_of 1 2 3; batch_of 4 5 6] 0 1 s0
      = (Ok r, s') /\
    forwards (trace s') =
      forwards (trace s0) ++
      map (fun b => cat (fst b)) [batch_of 1 2 3; batch_of 4 5 6].
Proof.
  assert (H := returned 0%Q validate_run I).
  eexists _, _. split; [exact H|].
  exact (proj1 (validate_passes _ _ _ _ _ H)).
Defined.

Lemma evaluate_only_never_trains_witness :
  evaluate (with_evaluate args0 true) = true /\
  n_iter (snd (main (TT := torch) (with_evaluate args0 true) get_default_config
                 (fun _ => five_batches) [batch_of 1 2 3] s0)) = n_iter s0.
Proof.
  assert (H : evaluate (with_evaluate args0 true) = true) by reflexivity.
  split; [exact H|].
  exact (proj1 (evaluate_only_never_trains (TT := torch)
                  (with_evaluate args0 true) get_default_config
                  (fun _ => five_batches) [batch_of 1 2 3] s0 H)).
Defined.

Lemma epoch_loop_modes_witness :
  evaluate (with_epoch_size args0 2) = false /\
  grad_enabled (init_state (TT := torch) 1 0) = true /\
  exists evs,
    trace (snd (main (TT := torch) (with_epoch_size args0 2)
                  (with_epochs get_default_config 2) (fun _ => five_batches)
                  [batch_of 1 2 3] (init_state (TT := torch) 1 0)))
      = trace (init_state (TT := torch) 1 0) ++ evs /\
    Forall (fun f => f = (true, true) \/ f = (false, false)) (forward_flags evs).
Proof.
  assert (He : evaluate (with_epoch_size args0 2) = false) by reflexivity.
  assert (Hg : grad_enabled (init_state (TT := torch) 1 0) = true) by reflexivity.
  split; [exact He|]. split; [exact Hg|].
  exact (epoch_loop_modes (TT := torch) (with_epoch_size args0 2)
           (with_epochs get_default_config 2) (fun _ => five_batches)
           [batch_of 1 2 3] (init_state (TT := torch) 1 0) He Hg).
Defined.

Lemma one_checkpoint_per_epoch_witness :
  evaluate (with_epoch_size args0 2) = false /\
  exists r s',
    main (TT := torch) (with_epoch_size args0 2)
      (with_epochs get_default_config 2) (fun _ => five_batches)
      [batch_of 1 2 3] (init_state (TT := torch) 1 0) = (Ok r, s') /\
    r = Some (best_EPE s') /\
    scheduler_steps (trace s') =
      scheduler_steps (trace (init_state (TT := torch) 1 0)) + 2.
Proof.
  assert (H := returned None main_run I).
  assert (He : evaluate (with_epoch_size args0 2) = false) by reflexivity.
  split; [exact He|]. eexists _, _. split; [exact H|].
  destruct (one_checkpoint_per_epoch _ _ _ _ _ H He) as (Hr & Hs & _).
  split; [exact Hr | exact Hs].
Defined.

Lemma unequal_pyramids_raise_witness :
  let cfg := with_terms get_default_config true in
  let deep : list (list Z) := [[1]; [2]] in
  let shallow : list (list Z) := [[1]] in
  multiscale_census_loss cfg = true /\
  multiscale_sl_loss cfg = true /\
  multiscale_fb_loss cfg = true /\
  (List.length shallow < List.length deep)%nat /\
  census_levels (TT := torch) args0 cfg [1] [2] deep shallow = Raise IndexError /\
  sl_levels (TT := torch) args0 cfg deep shallow = Raise IndexError /\
  fb_levels (TT := torch) args0 cfg [1] [2] shallow deep = Raise IndexError.
Proof.
  cbn zeta.
  assert (Hl : (List.length ([[1%Z]] : list (list Z))
                < List.length ([[1%Z]; [2%Z]] : list (list Z)))%nat)
    by exact (le_n 2).
  split; [reflexivity|]. split; [reflexivity|]. split; [reflexivity|].
  split; [exact Hl|].
  split; [|split].
  - exact (proj1 (unequal_pyramids_raise (TT := torch) args0
                    (with_terms get_default_config true) [1] [2]
                    [[1]; [2]] [[1]]) eq_refl Hl).
  - exact (proj1 (proj2 (unequal_pyramids_raise (TT := torch) args0
                           (with_terms get_default_config true) [1] [2]
                           [[1]; [2]] [[1]])) eq_refl Hl).
  - exact (proj2 (proj2 (unequal_pyramids_raise (TT := torch) args0
                           (with_terms get_default_config true) [1] [2]
                           [[1]] [[1]; [2]])) eq_refl Hl).
Defined.

(** ** The claims on the level loops, the combined loss and the epoch loop, on the toy backend *)

Lemma unflow_loss_is_weighted_sum_witness :
  exists r s',
    unflow_batch (TT := torch) args0 (with_terms get_default_config true)
      Adam 0 5 0 ([[100]; [200]], [3]) no_meters s0 = (Ok r, s') /\
    exists c l m f : tensor,
      backwards (trace s') =
        backwards (trace s0) ++ [tadd (tadd (tadd c l) m) (tmul f (1 # 1000))] /\
      PTens (tadd (tadd (tadd c l) m) (tmul f (1 # 1000))) =
        sum_levels [c; l; m; tmul f (1 # 1000)].
Proof.
  assert (H := returned no_meters unflow_all_run I).
  eexists _, _. split; [exact H|].
  destruct (unflow_loss_is_weighted_sum _ _ _ _ _ _ _ _ _ _ H)
    as (im1 & im2 & c & l & m & f & loss & K).
  cbn zeta in K.
  destruct K as (_ & _ & Kc & Kl & Km & Kf & _ & Kb & Kall & Ksum).
  destruct Kc as (? & _ & tc & ->), Kl as (? & _ & tl & ->),
           Km as (? & _ & tm & ->), Kf as (? & _ & tf & ->).
  specialize (Kall tc tl tm tf eq_refl eq_refl eq_refl eq_refl).
  specialize (Ksum toy_add_zero). subst loss.
  exists tc, tl, tm, tf. split; [exact Kb | exact Ksum].
Defined.

Lemma single_scale_is_level_0_witness :
  let cfg := with_terms get_default_config false in
  (forall (t : tensor) (q : Q), q == 0 -> tadd_scalar t q = t) /\
  (multiscale_census_loss cfg = false /\
   census_levels args0 cfg [1] [2] [[3]; [4]] [[5]; [6]] =
   Ok (PTens (census_at args0 [1] [2] ([3], [5])),
       [item (census_at args0 [1] [2] ([3], [5]))])) /\
  (multiscale_sl_loss cfg = false /\
   sl_levels args0 cfg [[3]; [4]] [[5]; [6]] =
   Ok (PTens (sl_at args0 cfg ([3], [5])), [item (sl_at args0 cfg ([3], [5]))])) /\
  (multiscale_ssim_loss cfg = false /\
   ssim_levels args0 cfg [1] [2] [[5]; [6]] =
   Ok (PTens (ssim_at args0 [1] [2] [5]), [item (ssim_at args0 [1] [2] [5])])) /\
  (multiscale_fb_loss cfg = false /\
   fb_levels args0 cfg [1] [2] [[3]; [4]] [[5]; [6]] =
   Ok (PTens (fb_at args0 cfg [1] [2] ([3], [5])),
       [item (fb_at args0 cfg [1] [2] ([3], [5]))])).
Proof.
  intros cfg.
  destruct (single_scale_is_level_0 (TT := torch) args0 cfg [1] [2] [3] [5]
              [[4]] [[6]] toy_add_zero)
    as (Hc & Hs & Hm & Hf).
  split; [exact toy_add_zero|].
  split; [split; [reflexivity | apply Hc; reflexivity]|].
  split; [split; [reflexivity | apply Hs; reflexivity]|].
  split; [split; [reflexivity | apply Hm; reflexivity]|].
  split; [reflexivity | apply Hf; reflexivity].
Defined.




Lemma main_run_EPEs :
  validation_EPEs (trace (snd main_run)) =
  [1829406440%Q; 167336385159235160%Q].
Proof. vm_compute. reflexivity. Qed.

Lemma checkpoint_every_epoch_best_on_improvement_witness :
  evaluate (with_epoch_size args0 2) = false /\
  exists r s',
    main (TT := torch) (with_epoch_size args0 2)
      (with_epochs get_default_config 2) (fun _ => five_batches)
      [batch_of 1 2 3] (init_state (TT := torch) 1 0) = (Ok r, s') /\
    (best_EPE (init_state (TT := torch) 1%Z 0%Z) < 0)%Q /\
    exists epes new,
      validation_EPEs (trace s') =
        validation_EPEs (trace (init_state (TT := torch) 1 0)) ++ epes /\
      saved (trace s') = saved (trace (init_state (TT := torch) 1 0)) ++ new /\
      List.length new = 2%nat /\
      Forall (fun e => (0 <= e)%Q) epes /\
      is_min (best_EPE s') epes.
Proof.
  assert (H := returned None main_run I).
  assert (He : evaluate (with_epoch_size args0 2) = false) by reflexivity.
  assert (Hneg : (best_EPE (init_state (TT := torch) 1%Z 0%Z) < 0)%Q) by reflexivity.
  split; [exact He|]. eexists _, _. split; [exact H|]. split; [exact Hneg|].
  destruct (checkpoint_every_epoch_best_on_improvement _ _ _ _ _ H He)
    as (epes & new & Hv & Hs & _ & Hl & _ & _ & Hcond).
  assert (Hepes : [1829406440%Q; 167336385159235160%Q] = epes).
  { rewrite main_run_EPEs in Hv. exact Hv. }
  assert (Hnn : Forall (fun e => (0 <= e)%Q) epes).
  { rewrite <- Hepes. repeat constructor; discriminate. }
  destruct (Hcond Hneg Hnn) as [_ Hfin].
  exists epes, new.
  split; [exact Hv|]. split; [exact Hs|]. split; [exact Hl|].
  split; [exact Hnn|]. apply Hfin. rewrite <- Hepes. discriminate.
Defined.

(** C3, as stated, fails: in this run of two epochs the validation EPE
    of the second epoch does not improve on that of the first, yet the
    record of the second epoch (epoch 2) has gone to the checkpoint
    sink, with is_best false; the first epoch's record is not flagged
    either. *)
Lemma checkpoint_saved_without_improvement :
  let s' := snd main_run in
  validation_EPEs (trace s') = [1829406440%Q; 167336385159235160%Q] /\
  py_lt 167336385159235160 1829406440 = false /\
  map (fun p => (ck_epoch (fst p), snd p)) (saved (trace s')) =
    [(1, false); (2, false)].
Proof.
  cbn zeta. split; [exact main_run_EPEs|]. split; [reflexivity|].
  vm_compute. reflexivity.
Qed.
